(** * Timetable pattern generator: the schedule-generation engine

    A shallow embedding of [timetable_analyzer.py] (the [Course] data class,
    [TimetableConstraints] and the generation methods of [TimetableAnalyzer])
    and the properties its specification states about it.

    Python strings are modelled by [string]; [Optional[str]] by
    [option string]; Python [int] by [Z]; lists by [list]; dictionaries,
    whose iteration order the generator depends on, by insertion-ordered
    association lists ([odict]); the [set] of seen slot patterns by a list
    used only through membership and insertion. *)

From Stdlib Require Import Bool Ascii String List ZArith Lia Arith.
From Stdlib Require Import Sorted Permutation.
Import ListNotations.

Local Open Scope string_scope.
Local Open Scope list_scope.

Set Implicit Arguments.

(** ** Python idioms *)

(** Truth value of an [Optional[str]]: [None] and the empty string are falsy. *)
Definition truthy (o : option string) : option string :=
  match o with
  | Some EmptyString => None
  | Some s => Some s
  | None => None
  end.

(** [x or default] on an [Optional[str]]. *)
Definition or_default (o : option string) (default : string) : string :=
  match truthy o with
  | Some s => s
  | None => default
  end.

(** [needle in hay] on strings: substring test. *)
Fixpoint str_contains (needle hay : string) : bool :=
  if prefix needle hay then true
  else match hay with
       | EmptyString => false
       | String _ hay' => str_contains needle hay'
       end.

(** [x in l] on a list of strings. *)
Definition str_in (x : string) (l : list string) : bool :=
  existsb (String.eqb x) l.

(** [l.index(x)]: position of the first occurrence; [None] stands for the
    [ValueError] raised when there is none. *)
Fixpoint list_index (x : string) (l : list string) : option nat :=
  match l with
  | [] => None
  | y :: l' => if String.eqb y x then Some O else option_map S (list_index x l')
  end.

(** ** Course *)

Record Course := mkCourse {
  code : string;
  title : string;
  short_title : string;
  section : string;
  instructor : string;
  instructor_short : string;
  credit_hours : Z;
  category : string;
  day1 : option string;
  slot1 : option string;
  venue1 : option string;
  day2 : option string;
  slot2 : option string;
  venue2 : option string;
  duration_minutes : Z
}.

Definition TIME_SLOT_ORDER : list string :=
  ["08:30"; "10:00"; "11:30"; "13:00"; "14:30"; "16:00"; "17:30"; "19:00"].

Definition is_lab (c : Course) : bool :=
  (duration_minutes c >? 100)%Z || str_contains "Lab" (title c).

(** The [try]/[except ValueError] around [index] makes the lookup return
    [None] for a slot that is not in the grid. *)
Definition _get_next_slot (slot : string) : option string :=
  match list_index slot TIME_SLOT_ORDER with
  | Some idx =>
      if (idx + 1 <? length TIME_SLOT_ORDER)%nat
      then nth_error TIME_SLOT_ORDER (idx + 1)%nat
      else None
  | None => None
  end.

Definition time_slot : Type := string * string * string.

(** One of the two [if self.dayN and self.slotN:] blocks of
    [get_time_slots]; the source writes the block out for N = 1 and N = 2. *)
Definition meeting_block (lab : bool) (day slot venue : option string)
  : list time_slot :=
  match truthy day, truthy slot with
  | Some d, Some s =>
      (d, s, or_default venue "TBD") ::
      (if lab
       then match truthy (_get_next_slot s) with
            | Some next_slot => [(d, next_slot, or_default venue "TBD")]
            | None => []
            end
       else [])
  | _, _ => []
  end.

Definition get_time_slots (c : Course) : list time_slot :=
  meeting_block (is_lab c) (day1 c) (slot1 c) (venue1 c) ++
  meeting_block (is_lab c) (day2 c) (slot2 c) (venue2 c).

Definition same_slot (a b : time_slot) : bool :=
  let '(d1, s1, _) := a in
  let '(d2, s2, _) := b in
  String.eqb d1 d2 && String.eqb s1 s2.

Definition conflicts_with (c other : Course) : bool :=
  let my_slots := get_time_slots c in
  let other_slots := get_time_slots other in
  existsb (fun a => existsb (fun b => same_slot a b) other_slots) my_slots.

(** [_has_conflicts]: every course against the ones after it. *)
Fixpoint _has_conflicts (courses : list Course) : bool :=
  match courses with
  | [] => false
  | c1 :: rest => existsb (conflicts_with c1) rest || _has_conflicts rest
  end.

(** ** Insertion-ordered dictionaries

    A Python [dict] keeps its keys in insertion order; assigning to an
    existing key keeps the key's position. *)

Definition odict (V : Type) : Type := list (string * V).

Fixpoint od_get (V : Type) (k : string) (d : odict V) : option V :=
  match d with
  | [] => None
  | (k', v) :: d' => if String.eqb k' k then Some v else od_get k d'
  end.

(** [d[k] = v] *)
Fixpoint od_set (V : Type) (k : string) (v : V) (d : odict V) : odict V :=
  match d with
  | [] => [(k, v)]
  | (k', v') :: d' =>
      if String.eqb k' k then (k', v) :: d' else (k', v') :: od_set k v d'
  end.

(** [k in d] *)
Definition od_mem (V : Type) (k : string) (d : odict V) : bool :=
  match od_get k d with Some _ => true | None => false end.

(** [d.get(k, default)] *)
Definition od_get_default (V : Type) (k : string) (d : odict V) (default : V) : V :=
  match od_get k d with Some v => v | None => default end.

(** [d.keys()] *)
Definition od_keys (V : Type) (d : odict V) : list string := map fst d.

(** [d[k].append(x)], for lists stored in a dictionary ([k] not in [d]
    would raise [KeyError]; every caller creates the entry first). *)
Definition od_append (A : Type) (k : string) (x : A) (d : odict (list A))
  : odict (list A) :=
  od_set k (od_get_default k d [] ++ [x]) d.

(** ** itertools *)

(** [itertools.product] applied to the pools: the rightmost pool advances
    fastest. *)
Fixpoint product (A : Type) (pools : list (list A)) : list (list A) :=
  match pools with
  | [] => [[]]
  | pool :: pools' =>
      flat_map (fun x => map (cons x) (product pools')) pool
  end.

(** [itertools.combinations(pool, r)] for [r >= 0]: the [r]-element
    subsequences of [pool], in lexicographic order of positions. *)
Fixpoint combinations (A : Type) (pool : list A) (r : nat) : list (list A) :=
  match r with
  | O => [[]]
  | S r' =>
      match pool with
      | [] => []
      | x :: pool' =>
          map (cons x) (combinations pool' r') ++ combinations pool' (S r')
      end
  end.

(** [sorted] on strings: code-point order, which on UTF-8 encoded strings
    is byte-wise lexicographic order. The order is total and antisymmetric,
    so the sorted list does not depend on the sorting algorithm. *)
Fixpoint insert_sorted (x : string) (l : list string) : list string :=
  match l with
  | [] => [x]
  | y :: l' => if String.leb x y then x :: l else y :: insert_sorted x l'
  end.

Definition sorted (l : list string) : list string :=
  fold_right insert_sorted [] l.

(** ** TimetableConstraints *)

(** A section preference is a single label (legacy format) or a list of
    labels. *)
Inductive section_pref :=
| PrefStr (s : string)
| PrefList (l : list string).

Record TimetableConstraints := mkConstraints {
  excluded_instructors : list string;
  excluded_time_slots : list string;
  required_courses : list string;
  wildcard_counts : odict Z;
  section_preferences : odict section_pref;
  batch : string
}.

Definition batch_to_semester : odict string :=
  [("BCS-2025", "BCS-2"); ("BCS-2024", "BCS-4"); ("BCS-2023", "BCS-6");
   ("BCS-2022", "BCS-8"); ("BCS-2021", "BCS-10")].

Definition get_semester_prefix (constraints : TimetableConstraints) : string :=
  od_get_default (batch constraints) batch_to_semester "BCS-8".

(** Truth value of a preference: the empty string and the empty list are
    falsy. *)
Definition pref_truthy (p : section_pref) : bool :=
  match p with
  | PrefStr s => negb (String.eqb s "")
  | PrefList l => match l with [] => false | _ => true end
  end.

(** [section_pref != 'any']: a list is never equal to a string. *)
Definition pref_not_any (p : section_pref) : bool :=
  match p with
  | PrefStr s => negb (String.eqb s "any")
  | PrefList _ => true
  end.

(** ** Diagnostics and results *)

(** The warnings the generator prints. *)
Inductive diagnostic :=
| SectionNotFound (pref : section_pref) (course_name : string)
| CourseNotFound (course_name : string)
| NoRequiredCourses.

(** A call returns a value or raises [ValueError]
    ([itertools.combinations] with a negative [r]). *)
Inductive result (A : Type) :=
| Returns (a : A)
| RaisesValueError.

Arguments RaisesValueError {A}.

(** ** Slot patterns and grouping *)

Definition _get_slot_pattern (courses : list Course) : list string :=
  sorted
    (flat_map
       (fun course =>
          map (fun slot : time_slot =>
                 let '(day, time, _) := slot in (day ++ "_" ++ time)%string)
              (get_time_slots course))
       courses).

Definition get_unique_courses (courses : list Course) : odict (list Course) :=
  fold_left
    (fun grouped course =>
       let key := short_title course in
       let grouped' :=
         if od_mem key grouped then grouped else od_set key [] grouped in
       od_append key course grouped')
    courses [].

Definition UNIVERSITY_ELECTIVE_CATEGORIES : list string :=
  ["MG (Elective)"; "HSS (Elective)"; "Mandatory Elec"].

Definition ROBO_ELECTIVE_CATEGORY : string := "Robo (Elective)".

Definition CS_ELECTIVE_CATEGORY : string := "CS (Elective)".

Definition _matches_wildcard (course_category wildcard : string) : bool :=
  if String.eqb wildcard "University Elective"
  then str_in course_category UNIVERSITY_ELECTIVE_CATEGORIES
  else if String.eqb wildcard "CS Elective"
  then String.eqb course_category CS_ELECTIVE_CATEGORY
  else if String.eqb wildcard "Robo Elective"
  then String.eqb course_category ROBO_ELECTIVE_CATEGORY
  else String.eqb course_category wildcard.

(** ** The generator's loop state *)

Definition selection : Type := list Course.

Record gen_state := mkState {
  valid_timetables : list selection;
  seen_slot_patterns : list (list string)
}.

(** A loop iteration either goes on with a new state or executes
    [return valid_timetables]. *)
Inductive control :=
| Continue (st : gen_state)
| Return (v : list selection).

(** [for a in l: body], with the early [return]. *)
Fixpoint for_each (A : Type) (body : A -> gen_state -> control)
  (l : list A) (st : gen_state) : control :=
  match l with
  | [] => Continue st
  | a :: l' =>
      match body a st with
      | Continue st' => for_each body l' st'
      | Return v => Return v
      end
  end.

Definition pattern_eq_dec : forall p q : list string, {p = q} + {p <> q} :=
  list_eq_dec string_dec.

(** The dedupe-and-emit step that both branches of the inner loop share:
    [if slot_pattern not in seen: add it; append the combo; return when
    len(valid_timetables) >= max_results]. *)
Definition emit (max_results : Z) (combo : selection) (st : gen_state)
  : control :=
  let slot_pattern := _get_slot_pattern combo in
  if in_dec pattern_eq_dec slot_pattern (seen_slot_patterns st)
  then Continue st
  else
    let st' := {| valid_timetables := valid_timetables st ++ [combo];
                  seen_slot_patterns := slot_pattern :: seen_slot_patterns st |} in
    if (Z.of_nat (length (valid_timetables st')) >=? max_results)%Z
    then Return (valid_timetables st')
    else Continue st'.

(** ** TimetableAnalyzer *)

Section TimetableAnalyzer.

(** [str.lower], left abstract: the properties below hold whatever the
    case mapping is. *)
Variable lower : string -> string.

(** [self.courses], the loaded catalog. *)
Variable courses : list Course.

(** The instructor check of [filter_courses] (the guard
    [if constraints.excluded_instructors:] only skips an empty loop). *)
Definition instructor_excluded (constraints : TimetableConstraints)
  (course : Course) : bool :=
  existsb
    (fun exc =>
       str_contains (lower exc) (lower (instructor course))
       || str_contains (lower exc) (lower (instructor_short course)))
    (excluded_instructors constraints).

(** The time-slot check of [filter_courses]. *)
Definition slot_excluded (constraints : TimetableConstraints)
  (course : Course) : bool :=
  existsb
    (fun slot : time_slot =>
       existsb
         (fun exc_slot =>
            negb (String.eqb (snd (fst slot)) "")
            && prefix exc_slot (snd (fst slot)))
         (excluded_time_slots constraints))
    (get_time_slots course).

(** The body of the loop of [filter_courses]: [true] when the course is
    appended to [filtered], [false] when one of the [continue]s is taken. *)
Definition accepted (constraints : TimetableConstraints) (course : Course)
  : bool :=
  let prefix_ := get_semester_prefix constraints in
  if negb (prefix "BCS-" (section course)) then false
  else
    let is_required := str_in (short_title course) (required_courses constraints) in
    if negb is_required && negb (prefix prefix_ (section course)) then false
    else if instructor_excluded constraints course then false
    else if slot_excluded constraints course then false
    else true.

(** [include_all_for_required] is never read by the source. *)
Definition filter_courses (constraints : TimetableConstraints) : list Course :=
  filter (accepted constraints) courses.

(** One iteration of [for course_name in constraints.required_courses]:
    the option list appended to [required_options], if any, and the
    warning printed, if any. *)
Definition required_option (constraints : TimetableConstraints)
  (grouped : odict (list Course)) (course_name : string)
  : option (list Course) * list diagnostic :=
  match od_get course_name grouped with
  | Some course_sections =>
      let section_pref :=
        od_get_default course_name (section_preferences constraints)
                       (PrefStr "any") in
      if pref_truthy section_pref && pref_not_any section_pref then
        let filtered_sections :=
          match section_pref with
          | PrefList l =>
              filter (fun c => str_in (section c) l) course_sections
          | PrefStr s =>
              filter (fun c => String.eqb (section c) s) course_sections
          end in
        match filtered_sections with
        | _ :: _ => (Some filtered_sections, [])
        | [] => (Some course_sections, [SectionNotFound section_pref course_name])
        end
      else (Some course_sections, [])
  | None => (None, [CourseNotFound course_name])
  end.

Definition resolve_required (constraints : TimetableConstraints)
  (grouped : odict (list Course)) : list (list Course) * list diagnostic :=
  fold_left
    (fun acc course_name =>
       let '(required_options, log) := acc in
       let '(opt, warn) := required_option constraints grouped course_name in
       (match opt with
        | Some o => required_options ++ [o]
        | None => required_options
        end, log ++ warn))
    (required_courses constraints) ([], []).

(** One iteration of [for course in filtered] filling the wildcard pools:
    the course goes to the first wildcard category it matches. *)
Definition add_to_pool (constraints : TimetableConstraints)
  (wildcard_pools : odict (list Course)) (course : Course)
  : odict (list Course) :=
  if str_in (short_title course) (required_courses constraints)
  then wildcard_pools
  else
    match find (fun wildcard_cat => _matches_wildcard (category course) wildcard_cat)
               (od_keys (wildcard_counts constraints)) with
    | Some wildcard_cat =>
        let pools' :=
          if od_mem wildcard_cat wildcard_pools then wildcard_pools
          else od_set wildcard_cat [] wildcard_pools in
        od_append wildcard_cat course pools'
    | None => wildcard_pools
    end.

Definition fill_wildcard_pools (constraints : TimetableConstraints)
  (filtered : list Course) : odict (list Course) :=
  fold_left (add_to_pool constraints) filtered
    (fold_left (fun d cat => od_set cat [] d)
               (od_keys (wildcard_counts constraints)) []).

(** [wildcard_by_category] and [wildcard_sections_by_name]. *)
Definition group_wildcards (wildcard_pools : odict (list Course))
  : odict (list string) * odict (list Course) :=
  fold_left
    (fun acc entry =>
       let '(wildcard_by_category, wildcard_sections_by_name) := acc in
       let '(cat, pool) := entry in
       let cat_grouped := get_unique_courses pool in
       (od_set cat (od_keys cat_grouped) wildcard_by_category,
        fold_left (fun d item => od_set (fst item) (snd item) d)
                  cat_grouped wildcard_sections_by_name))
    wildcard_pools ([], []).

Fixpoint wildcard_combos_loop (items : list (string * Z))
  (wildcard_by_category : odict (list string))
  (all_combos : list (list string)) : result (list (list string)) :=
  match items with
  | [] => Returns all_combos
  | (cat, count) :: items' =>
      if negb (od_mem cat wildcard_by_category) || (count =? 0)%Z
      then wildcard_combos_loop items' wildcard_by_category all_combos
      else
        let available := od_get_default cat wildcard_by_category [] in
        let r := Z.min count (Z.of_nat (length available)) in
        if (r <? 0)%Z then RaisesValueError
        else
          let cat_combos := combinations available (Z.to_nat r) in
          let new_all :=
            flat_map
              (fun existing => map (fun cat_combo => existing ++ cat_combo) cat_combos)
              all_combos in
          wildcard_combos_loop items' wildcard_by_category new_all
  end.

Definition _generate_wildcard_combos (wildcard_counts : odict Z)
  (wildcard_by_category : odict (list string)) : result (list (list string)) :=
  wildcard_combos_loop wildcard_counts wildcard_by_category [[]].

(** The section lists of the named wildcard courses (the loop that
    fills [wildcard_section_options]; a name without sections is
    skipped). *)
Definition wildcard_section_options
  (wildcard_sections_by_name : odict (list Course))
  (wildcard_names : list string) : list (list Course) :=
  flat_map
    (fun wc_name =>
       match od_get_default wc_name wildcard_sections_by_name [] with
       | [] => []
       | sections => [sections]
       end)
    wildcard_names.

(** The body of [for wildcard_names in wildcard_name_combos]. *)
Definition wildcard_iteration (max_results : Z)
  (wildcard_sections_by_name : odict (list Course)) (req_list : selection)
  (wildcard_names : list string) (st : gen_state) : control :=
  match wildcard_section_options wildcard_sections_by_name wildcard_names with
  | [] => emit max_results req_list st
  | options =>
      for_each
        (fun wc_section_combo st =>
           let full_combo := req_list ++ wc_section_combo in
           if negb (_has_conflicts full_combo)
           then emit max_results full_combo st
           else Continue st)
        (product options) st
  end.

(** The body of [for req_combo in product(...)]. *)
Definition required_iteration (max_results : Z)
  (wildcard_sections_by_name : odict (list Course))
  (wildcard_name_combos : list (list string))
  (req_combo : selection) (st : gen_state) : control :=
  let req_list := req_combo in
  if _has_conflicts req_list then Continue st
  else
    for_each (wildcard_iteration max_results wildcard_sections_by_name req_list)
             wildcard_name_combos st.

Definition generate_timetables (constraints : TimetableConstraints)
  (max_results : Z) : list diagnostic * result (list selection) :=
  let filtered := filter_courses constraints in
  let grouped := get_unique_courses filtered in
  let '(required_options, log) := resolve_required constraints grouped in
  let wildcard_pools := fill_wildcard_pools constraints filtered in
  let '(wildcard_by_category, wildcard_sections_by_name) :=
    group_wildcards wildcard_pools in
  match required_options with
  | [] => (log ++ [NoRequiredCourses], Returns [])
  | _ =>
      match _generate_wildcard_combos (wildcard_counts constraints)
                                      wildcard_by_category with
      | RaisesValueError => (log, RaisesValueError)
      | Returns wildcard_name_combos =>
          (log,
           Returns
             match for_each
                     (required_iteration max_results wildcard_sections_by_name
                                         wildcard_name_combos)
                     (product required_options)
                     {| valid_timetables := []; seen_slot_patterns := [] |} with
             | Continue st => valid_timetables st
             | Return v => v
             end)
      end
  end.

End TimetableAnalyzer.

(** ** Specification-side notions *)

(** [next] is the entry that follows [slot] in the ordered slot list. *)
Definition next_in_grid (slot next : string) : Prop :=
  exists i, nth_error TIME_SLOT_ORDER i = Some slot
            /\ nth_error TIME_SLOT_ORDER (S i) = Some next.

(** What one stored meeting (day, slot, venue) contributes to the occupied
    slots of an offering, as the specification words it: nothing when the
    pair is not present; the triple itself; and for a lab whose slot has a
    following grid entry, the triple at that next slot too. *)
Inductive meeting_emits (lab : bool) (day slot venue : option string)
  : list time_slot -> Prop :=
| emits_nothing :
    truthy day = None \/ truthy slot = None ->
    meeting_emits lab day slot venue []
| emits_base d s :
    truthy day = Some d -> truthy slot = Some s ->
    lab = false \/ (forall next, ~ next_in_grid s next) ->
    meeting_emits lab day slot venue [(d, s, or_default venue "TBD")]
| emits_extended d s next :
    truthy day = Some d -> truthy slot = Some s ->
    lab = true -> next_in_grid s next ->
    meeting_emits lab day slot venue
      [(d, s, or_default venue "TBD"); (d, next, or_default venue "TBD")].

(** Two offerings share an occupied (day, slotStart) pair. *)
Definition share_slot (a b : Course) : Prop :=
  exists day slot va vb,
    In (day, slot, va) (get_time_slots a)
    /\ In (day, slot, vb) (get_time_slots b).

(** No two offerings of the selection share an occupied pair. *)
Definition conflict_free (sel : selection) : Prop :=
  forall i j a b,
    (i < j)%nat -> nth_error sel i = Some a -> nth_error sel j = Some b ->
    ~ share_slot a b.

(** An offering without meeting data: neither (day1, slot1) nor
    (day2, slot2) is a present pair. *)
Definition no_meeting_data (c : Course) : Prop :=
  (truthy (day1 c) = None \/ truthy (slot1 c) = None)
  /\ (truthy (day2 c) = None \/ truthy (slot2 c) = None).

(** The [day_time] keys of the occupied slots of a selection, before
    sorting. *)
Definition slot_keys (courses : list Course) : list string :=
  flat_map
    (fun course =>
       map (fun slot : time_slot =>
              let '(day, time, _) := slot in (day ++ "_" ++ time)%string)
           (get_time_slots course))
    courses.


(** The selections that reach the dedupe-and-emit step, in the order of
    the nested loops of [generate_timetables]: for each required pick
    without conflicts, for each wildcard name combination, the required
    pick alone when no wildcard section list is left, else each
    conflict-free extension by one section per wildcard course. *)
Definition wildcard_candidates (wildcard_sections_by_name : odict (list Course))
  (req_list : selection) (wildcard_names : list string) : list selection :=
  match wildcard_section_options wildcard_sections_by_name wildcard_names with
  | [] => [req_list]
  | options =>
      filter (fun full_combo => negb (_has_conflicts full_combo))
             (map (app req_list) (product options))
  end.

Definition required_candidates (wildcard_sections_by_name : odict (list Course))
  (wildcard_name_combos : list (list string)) (req_list : selection)
  : list selection :=
  if _has_conflicts req_list then []
  else flat_map (wildcard_candidates wildcard_sections_by_name req_list)
                wildcard_name_combos.

Definition enumeration (wildcard_sections_by_name : odict (list Course))
  (wildcard_name_combos : list (list string))
  (required_options : list (list Course)) : list selection :=
  flat_map (required_candidates wildcard_sections_by_name wildcard_name_combos)
           (product required_options).

(** Keeping, of a list of selections, the first one of every slot pattern
    not seen before. *)
Fixpoint dedupe (seen : list (list string)) (l : list selection)
  : list selection :=
  match l with
  | [] => []
  | sel :: l' =>
      if in_dec pattern_eq_dec (_get_slot_pattern sel) seen
      then dedupe seen l'
      else sel :: dedupe (_get_slot_pattern sel :: seen) l'
  end.

(** The value a loop leaves in [valid_timetables] when the function
    returns, early or at the end. *)
Definition outcome (c : control) : list selection :=
  match c with
  | Continue st => valid_timetables st
  | Return v => v
  end.

(** [sel] is the first selection of its slot pattern in [order]. *)
Definition first_with_signature (order : list selection) (sel : selection)
  : Prop :=
  exists before after,
    order = before ++ sel :: after
    /\ forall other, In other before ->
                     _get_slot_pattern other <> _get_slot_pattern sel.

(** The body of the loop of [get_unique_courses]. *)
Definition group_step (grouped : odict (list Course)) (course : Course)
  : odict (list Course) :=
  let key := short_title course in
  let grouped' :=
    if od_mem key grouped then grouped else od_set key [] grouped in
  od_append key course grouped'.


(** The courses of a list that carry a given short title, in list order. *)
Definition group_of (name : string) (l : list Course) : list Course :=
  filter (fun c => String.eqb (short_title c) name) l.


(** One assignment [d[name] = sections] of a loop over dictionary items. *)
Definition set_item (V : Type) (d : odict V) (item : string * V) : odict V :=
  od_set (fst item) (snd item) d.

(** Appending to the list stored under a key, creating the entry when the
    key is new. *)
Definition od_push (A : Type) (key : string) (x : A) (d : odict (list A))
  : odict (list A) :=
  od_append key x (if od_mem key d then d else od_set key [] d).

(** Every element of every list stored in the dictionary satisfies [P]. *)
Definition all_values (A : Type) (P : A -> Prop) (d : odict (list A)) : Prop :=
  forall k v, od_get k d = Some v -> Forall P v.

(** What every course of a wildcard pool satisfies: it passed the filter
    and its short title is not required. *)
Definition wildcard_eligible (constraints : TimetableConstraints)
  (filtered : list Course) (c : Course) : Prop :=
  In c filtered
  /\ str_in (short_title c) (required_courses constraints) = false.

(** The labels a section preference names. *)
Definition label_matches (pref : section_pref) (c : Course) : Prop :=
  match pref with
  | PrefStr s => section c = s
  | PrefList l => In (section c) l
  end.

Definition label_matchesb (pref : section_pref) (c : Course) : bool :=
  match pref with
  | PrefStr s => String.eqb (section c) s
  | PrefList l => str_in (section c) l
  end.

(** The body of the loop that resolves the required options. *)
Definition required_step (constraints : TimetableConstraints)
  (grouped : odict (list Course))
  (acc : list (list Course) * list diagnostic) (course_name : string)
  : list (list Course) * list diagnostic :=
  let '(required_options, log) := acc in
  let '(opt, warn) := required_option constraints grouped course_name in
  (match opt with
   | Some o => required_options ++ [o]
   | None => required_options
   end, log ++ warn).

(** The body of the loop of [generate_timetables] that fills
    [wildcard_by_category] and [wildcard_sections_by_name]. *)
Definition group_wildcards_step
  (acc : odict (list string) * odict (list Course))
  (entry : string * list Course)
  : odict (list string) * odict (list Course) :=
  let '(wildcard_by_category, wildcard_sections_by_name) := acc in
  let '(cat, pool) := entry in
  let cat_grouped := get_unique_courses pool in
  (od_set cat (od_keys cat_grouped) wildcard_by_category,
   fold_left (@set_item (list Course)) cat_grouped wildcard_sections_by_name).

(** Every wildcard course name offered by a category has a non-empty
    section list, whose courses satisfy [P]. *)
Definition names_resolved (P : Course -> Prop)
  (wildcard_by_category : odict (list string))
  (wildcard_sections_by_name : odict (list Course)) : Prop :=
  (forall name sections,
      od_get name wildcard_sections_by_name = Some sections ->
      sections <> [] /\ Forall P sections)
  /\ (forall cat names name,
         od_get cat wildcard_by_category = Some names -> In name names ->
         od_mem name wildcard_sections_by_name = true).

(** [name] is one of the course names available in some wildcard category. *)
Definition offered_name (wildcard_by_category : odict (list string))
  (name : string) : Prop :=
  exists cat names,
    od_get cat wildcard_by_category = Some names /\ In name names.

(** The number of wildcard courses a name combination holds: for every
    category its quota, capped by the number of course names available. *)
Definition quota_total (wildcard_counts : odict Z)
  (wildcard_by_category : odict (list string)) : Z :=
  fold_right
    (fun item acc =>
       (Z.min (snd item)
              (Z.of_nat (length (od_get_default (fst item) wildcard_by_category [])))
        + acc)%Z)
    0%Z wildcard_counts.

(** The selections [generate_timetables] meets, in the order it meets
    them: nothing when no required option list was resolved (the early
    [return []]), else the enumeration over the resolved options and the
    wildcard name combinations. *)
Definition generation_order (lower : string -> string) (courses : list Course)
  (constraints : TimetableConstraints) : list selection :=
  let filtered := filter_courses lower courses constraints in
  let grouped := get_unique_courses filtered in
  let '(required_options, _) := resolve_required constraints grouped in
  let '(wildcard_by_category, wildcard_sections_by_name) :=
    group_wildcards (fill_wildcard_pools constraints filtered) in
  match required_options with
  | [] => []
  | _ =>
      match _generate_wildcard_combos (wildcard_counts constraints)
                                      wildcard_by_category with
      | Returns wildcard_name_combos =>
          enumeration wildcard_sections_by_name wildcard_name_combos
                      required_options
      | RaisesValueError => []
      end
  end.

(** The number of selections after which the generator returns: the cap
    is tested after an append, so the first selection is always kept. *)
Definition effective_cap (max_results : Z) : nat :=
  Z.to_nat (Z.max 1 max_results).

(** The required course names that have a group in the filtered catalog. *)
Definition resolvable_required (lower : string -> string)
  (courses : list Course) (constraints : TimetableConstraints) : list string :=
  filter
    (fun name =>
       od_mem name (get_unique_courses (filter_courses lower courses constraints)))
    (required_courses constraints).

(** The course names available per wildcard category
    ([wildcard_by_category]). *)
Definition wildcard_names_available (lower : string -> string)
  (courses : list Course) (constraints : TimetableConstraints)
  : odict (list string) :=
  fst (group_wildcards
         (fill_wildcard_pools constraints
            (filter_courses lower courses constraints))).

(** A selection without its offerings that occupy no slot. *)
Definition scheduled_part (sel : selection) : selection :=
  filter (fun c => match get_time_slots c with [] => false | _ => true end) sel.

(** ** Example data *)

(** [str.lower] on ASCII text. *)
Definition lower_char (c : ascii) : ascii :=
  let n := nat_of_ascii c in
  if ((65 <=? n) && (n <=? 90))%nat then ascii_of_nat (n + 32) else c.

Fixpoint ascii_lower (s : string) : string :=
  match s with
  | EmptyString => EmptyString
  | String c s' => String (lower_char c) (ascii_lower s')
  end.

Definition example_course (name sec instr cat : string)
  (day slot : option string) (minutes : Z) : Course :=
  {| code := "CS000"; title := name; short_title := name; section := sec;
     instructor := instr; instructor_short := instr; credit_hours := 3;
     category := cat; day1 := day; slot1 := slot; venue1 := None;
     day2 := None; slot2 := None; venue2 := None;
     duration_minutes := minutes |}.

Definition web_a : Course :=
  example_course "Web Pro" "BCS-8A" "Dr Smith" "Core" (Some "Mon") (Some "08:30") 80.
Definition web_b : Course :=
  example_course "Web Pro" "BCS-8B" "Dr Jones" "Core" (Some "Tue") (Some "08:30") 80.
Definition applied_ml : Course :=
  example_course "Applied ML" "BCS-8A" "Dr Khan" "Core" (Some "Mon") (Some "08:30") 80.
Definition seminar : Course :=
  example_course "Seminar" "BCS-8A" "Dr Khan" "Core" None None 80.
Definition ai_lab : Course :=
  example_course "AI Lab" "BCS-4A" "Dr Ali" "Core" (Some "Wed") (Some "17:30") 170.
Definition odd_lab : Course :=
  example_course "Odd Lab" "BCS-8A" "Dr Ali" "Core" (Some "Thu") (Some "09:15") 170.

Definition example_catalog : list Course :=
  [web_a; web_b; applied_ml; seminar; ai_lab; odd_lab].

(** Two required courses, one of which clashes with a section of the
    other. *)
Definition scenario_a : TimetableConstraints :=
  {| excluded_instructors := []; excluded_time_slots := [];
     required_courses := ["Web Pro"; "Applied ML"];
     wildcard_counts := []; section_preferences := []; batch := "BCS-2022" |}.

(** A required course name without offerings next to one with offerings. *)
Definition scenario_missing : TimetableConstraints :=
  {| excluded_instructors := []; excluded_time_slots := [];
     required_courses := ["Robotics"; "Applied ML"];
     wildcard_counts := []; section_preferences := []; batch := "BCS-2022" |}.

(** A preferred section whose instructor may be excluded. *)
Definition scenario_preference (excluded : list string) : TimetableConstraints :=
  {| excluded_instructors := excluded; excluded_time_slots := [];
     required_courses := ["Web Pro"];
     wildcard_counts := [];
     section_preferences := [("Web Pro", PrefList ["BCS-8A"])];
     batch := "BCS-2022" |}.

(** A student of the batch in semester 8 repeating a course of semester 4. *)
Definition scenario_repeat : TimetableConstraints :=
  {| excluded_instructors := []; excluded_time_slots := [];
     required_courses := ["AI Lab"];
     wildcard_counts := []; section_preferences := []; batch := "BCS-2022" |}.

(** A required course with two sections next to one without meeting data. *)
Definition scenario_seminar : TimetableConstraints :=
  {| excluded_instructors := []; excluded_time_slots := [];
     required_courses := ["Web Pro"; "Seminar"];
     wildcard_counts := []; section_preferences := []; batch := "BCS-2022" |}.

Definition data_mining_a : Course :=
  example_course "Data Mining" "BCS-8A" "Dr Noor" "CS (Elective)"
                 (Some "Wed") (Some "10:00") 80.
Definition data_mining_b : Course :=
  example_course "Data Mining" "BCS-8B" "Dr Noor" "CS (Elective)"
                 (Some "Thu") (Some "10:00") 80.

Definition elective_catalog : list Course :=
  [web_b; data_mining_a; data_mining_b].

(** A quota of two elective courses where one course is on offer. *)
Definition scenario_c : TimetableConstraints :=
  {| excluded_instructors := []; excluded_time_slots := [];
     required_courses := ["Web Pro"];
     wildcard_counts := [("CS Elective", 2%Z)];
     section_preferences := []; batch := "BCS-2022" |}.

(** ** Catalog queries, the greedy builder and the web layer's slot keys *)

(** A Python [set] of strings, as a duplicate-free list. The iteration
    order of a set is unspecified; the sets below are consumed through
    [sorted] and through membership, which do not depend on it. *)
Definition set_add (x : string) (s : list string) : list string :=
  if str_in x s then s else s ++ [x].

(** [TimetableConstraints(batch=batch)]: every other field at its default. *)
Definition default_constraints (batch : string) : TimetableConstraints :=
  {| excluded_instructors := []; excluded_time_slots := [];
     required_courses := []; wildcard_counts := [];
     section_preferences := []; batch := batch |}.

(** The body of the loop of [get_available_instructors]. *)
Definition add_instructor (instructors : list string) (c : Course)
  : list string :=
  if negb (String.eqb (instructor c) "") && negb (String.eqb (instructor c) "TBD")
  then set_add (instructor c) instructors
  else instructors.

(** The body of the loop of [get_all_cs_instructors]. *)
Definition add_cs_instructor (instructors : list string) (c : Course)
  : list string :=
  if prefix "BCS-" (section c)
     && negb (String.eqb (instructor c) "")
     && negb (String.eqb (instructor c) "TBD")
  then set_add (instructor c) instructors
  else instructors.

(** [course.category or "Uncategorized"] *)
Definition category_or_default (course : Course) : string :=
  if String.eqb (category course) "" then "Uncategorized" else category course.

(** The body of the loop of [get_available_courses]. *)
Definition add_to_category (by_category : odict (list string)) (course : Course)
  : odict (list string) :=
  let cat := category_or_default course in
  let by_category' :=
    if od_mem cat by_category then by_category else od_set cat [] by_category in
  od_set cat (set_add (short_title course) (od_get_default cat by_category' []))
         by_category'.

(** The body of the loop of [get_all_cs_courses]: sections outside the
    program are skipped. *)
Definition add_cs_to_category (by_category : odict (list string))
  (course : Course) : odict (list string) :=
  if negb (prefix "BCS-" (section course)) then by_category
  else add_to_category by_category course.

(** [{k: sorted(list(v)) for k, v in by_category.items()}] *)
Definition sorted_values (by_category : odict (list string))
  : odict (list string) :=
  map (fun kv => (fst kv, sorted (snd kv))) by_category.

Section CatalogQueries.

(** [self.courses] *)
Variable courses : list Course.

Definition get_courses_for_batch (batch : string) : list Course :=
  let prefix_ := get_semester_prefix (default_constraints batch) in
  filter (fun c => prefix prefix_ (section c)) courses.

Definition get_available_instructors (batch : string) : list string :=
  let courses := get_courses_for_batch batch in
  sorted (fold_left add_instructor courses []).

Definition get_all_cs_instructors : list string :=
  sorted (fold_left add_cs_instructor courses []).

Definition get_available_courses (batch : string) : odict (list string) :=
  let courses := get_courses_for_batch batch in
  sorted_values (fold_left add_to_category courses []).

Definition get_all_cs_courses : odict (list string) :=
  sorted_values (fold_left add_cs_to_category courses []).

End CatalogQueries.

(** The loop of [_build_combo_with_wildcards]: for every wildcard name the
    first section, in the order of [filtered], that does not conflict with
    the combo built so far; [None] when a name has no such section. *)
Fixpoint build_combo_loop (filtered : list Course) (wildcard_names : list string)
  (combo : list Course) : option (list Course) :=
  match wildcard_names with
  | [] => Some combo
  | wc_name :: rest =>
      let sections :=
        filter (fun c => String.eqb (short_title c) wc_name) filtered in
      match find (fun section_ => negb (_has_conflicts (combo ++ [section_])))
                 sections with
      | Some section_ => build_combo_loop filtered rest (combo ++ [section_])
      | None => None
      end
  end.

(** [grouped] is not read by the source. *)
Definition _build_combo_with_wildcards (required : list Course)
  (wildcard_names : list string) (grouped : odict (list Course))
  (filtered : list Course) : option (list Course) :=
  build_combo_loop filtered wildcard_names required.

(** [time.split('-')[0]] *)
Fixpoint before_dash (time : string) : string :=
  match time with
  | EmptyString => EmptyString
  | String c rest =>
      if Ascii.eqb c "-"%char then EmptyString else String c (before_dash rest)
  end.

(** [get_slot_key] of the web layer. *)
Definition get_slot_key (day time : string) : string :=
  let time_start := if str_contains "-" time then before_dash time else time in
  (day ++ "_" ++ time_start)%string.

(** [get_slot_pattern] of the web layer: the [frozenset] of the slot keys
    of the courses. *)
Definition get_slot_pattern (courses : list Course) : list string :=
  fold_left
    (fun slots course =>
       fold_left
         (fun slots (slot : time_slot) =>
            let '(day, time, _) := slot in
            set_add (get_slot_key day time) slots)
         (get_time_slots course) slots)
    courses [].

(** The order [sorted] sorts by. *)
Definition str_le (a b : string) : Prop := String.leb a b = true.

(** The same request for another batch. *)
Definition set_batch (constraints : TimetableConstraints) (batch : string)
  : TimetableConstraints :=
  {| excluded_instructors := excluded_instructors constraints;
     excluded_time_slots := excluded_time_slots constraints;
     required_courses := required_courses constraints;
     wildcard_counts := wildcard_counts constraints;
     section_preferences := section_preferences constraints;
     batch := batch |}.

(** The option lists [generate_timetables] resolves for the required
    courses ([required_options]). *)
Definition required_options_of (lower : string -> string)
  (courses : list Course) (constraints : TimetableConstraints)
  : list (list Course) :=
  fst (resolve_required constraints
         (get_unique_courses (filter_courses lower courses constraints))).

(** A request for electives only. *)
Definition scenario_electives_only : TimetableConstraints :=
  {| excluded_instructors := []; excluded_time_slots := [];
     required_courses := [];
     wildcard_counts := [("CS Elective", 1%Z)];
     section_preferences := []; batch := "BCS-2022" |}.

(** An offering that may fill a wildcard slot of the request: it passed the
    filter, its short title is not required, and its category matches one
    of the requested wildcard categories. *)
Definition wildcard_pick (constraints : TimetableConstraints)
  (filtered : list Course) (c : Course) : Prop :=
  wildcard_eligible constraints filtered c
  /\ exists cat,
      In cat (od_keys (wildcard_counts constraints))
      /\ _matches_wildcard (category c) cat = true.

(** Equality of two [frozenset]s of strings: the same members. *)
Definition set_eqb (a b : list string) : bool :=
  forallb (fun x => str_in x b) a && forallb (fun x => str_in x a) b.

(** [patterns[pattern_key].append(tt)] on the [defaultdict(list)] of the
    web layer, whose keys are slot patterns: the timetable joins the group
    of its pattern, and a pattern met for the first time opens a group at
    the end. *)
Fixpoint patterns_append (pattern_key : list string) (tt : selection)
  (patterns : list (list string * list selection))
  : list (list string * list selection) :=
  match patterns with
  | [] => [(pattern_key, [tt])]
  | (k, tts) :: rest =>
      if set_eqb k pattern_key then (k, tts ++ [tt]) :: rest
      else (k, tts) :: patterns_append pattern_key tt rest
  end.

(** The loop of the route [generate_timetable] that groups the generated
    timetables by slot pattern; the length of a group is the
    [num_variations] the route reports for the pattern. *)
Definition group_by_slot_pattern (timetables : list selection)
  : list (list string * list selection) :=
  fold_left
    (fun patterns tt => patterns_append (get_slot_pattern tt) tt patterns)
    timetables [].

(** A group of the web layer: not empty, and each of its timetables has the
    group's slot pattern. *)
Definition pattern_group (g : list string * list selection) : Prop :=
  snd g <> []
  /\ Forall (fun tt => set_eqb (fst g) (get_slot_pattern tt) = true) (snd g).

(** * Properties *)

(** ** Strings and lists *)

Lemma prefix_iff (s1 s2 : string) :
  prefix s1 s2 = true <-> exists rest, s2 = (s1 ++ rest)%string.
Proof.
  revert s2; induction s1 as [|a s1 IH]; intros s2; simpl.
  - destruct s2; split; intros _; try reflexivity; eexists; reflexivity.
  - destruct s2 as [|b s2]; simpl.
    + split; [discriminate | intros [rest H]; discriminate].
    + destruct (ascii_dec a b) as [->|Hab].
      * rewrite IH. split; intros [rest H]; exists rest; congruence.
      * split; [discriminate | intros [rest H]; congruence].
Qed.

Lemma str_contains_unfold (needle hay : string) :
  str_contains needle hay =
  if prefix needle hay then true
  else match hay with
       | EmptyString => false
       | String _ hay' => str_contains needle hay'
       end.
Proof. destruct hay; reflexivity. Qed.

Lemma str_contains_iff (needle hay : string) :
  str_contains needle hay = true
  <-> exists pre post, hay = (pre ++ needle ++ post)%string.
Proof.
  induction hay as [|a hay IH]; rewrite str_contains_unfold.
  - destruct (prefix needle "") eqn:Hp.
    + apply prefix_iff in Hp. destruct Hp as [rest Hp].
      split; [intros _ | reflexivity]. exists "", rest. exact Hp.
    + split; [discriminate|]. intros [pre [post H]].
      destruct pre; simpl in H.
      * assert (prefix needle "" = true) by (apply prefix_iff; eauto).
        congruence.
      * discriminate.
  - destruct (prefix needle (String a hay)) eqn:Hp.
    + apply prefix_iff in Hp. destruct Hp as [rest Hp].
      split; [intros _ | reflexivity]. exists "", rest. exact Hp.
    + rewrite IH. split.
      * intros [pre [post H]]. exists (String a pre), post. simpl. now rewrite H.
      * intros [pre [post H]]. destruct pre as [|b pre]; simpl in H.
        -- assert (prefix needle (String a hay) = true)
             by (apply prefix_iff; eauto).
           congruence.
        -- injection H as _ H. eauto.
Qed.

Lemma str_in_iff (x : string) (l : list string) :
  str_in x l = true <-> In x l.
Proof.
  unfold str_in. rewrite existsb_exists. split.
  - intros [y [Hy He]]. apply String.eqb_eq in He. now subst.
  - intros H. exists x. split; [assumption | apply String.eqb_refl].
Qed.

Lemma list_index_none (x : string) (l : list string) :
  list_index x l = None <-> ~ In x l.
Proof.
  induction l as [|y l IH]; simpl.
  - tauto.
  - destruct (String.eqb_spec y x) as [->|Hne].
    + split; [discriminate | intros H; exfalso; auto].
    + destruct (list_index x l); simpl.
      * split; [discriminate|]. intros H.
        assert (~ In x l) as Hn by tauto. apply IH in Hn. discriminate.
      * split; [|reflexivity]. intros _ [H|H]; [congruence | now apply IH].
Qed.

Lemma list_index_some (x : string) (l : list string) (i : nat) :
  list_index x l = Some i -> nth_error l i = Some x.
Proof.
  revert i; induction l as [|y l IH]; intros i; simpl; [discriminate|].
  destruct (String.eqb_spec y x) as [->|Hne].
  - intros [= <-]. reflexivity.
  - destruct (list_index x l) as [j|]; simpl; [|discriminate].
    intros [= <-]. simpl. now apply IH.
Qed.

Lemma list_index_nodup (x : string) (l : list string) (i : nat) :
  NoDup l -> nth_error l i = Some x -> list_index x l = Some i.
Proof.
  intros Hnd; revert i; induction Hnd as [|y l Hy Hnd IH]; intros i.
  - destruct i; discriminate.
  - destruct i as [|i]; simpl.
    + intros [= ->]. now rewrite String.eqb_refl.
    + intros H. destruct (String.eqb_spec y x) as [->|Hne].
      * exfalso. apply Hy. eapply nth_error_In; eassumption.
      * now rewrite (IH i H).
Qed.

(** ** The time grid *)

Lemma TIME_SLOT_ORDER_nodup : NoDup TIME_SLOT_ORDER.
Proof.
  unfold TIME_SLOT_ORDER.
  repeat (constructor; [simpl; intuition discriminate|]). constructor.
Qed.

Lemma get_next_slot_iff (slot next : string) :
  _get_next_slot slot = Some next <-> next_in_grid slot next.
Proof.
  unfold _get_next_slot, next_in_grid. split.
  - destruct (list_index slot TIME_SLOT_ORDER) as [idx|] eqn:Hi; [|discriminate].
    apply list_index_some in Hi.
    destruct (idx + 1 <? length TIME_SLOT_ORDER)%nat; [|discriminate].
    rewrite Nat.add_1_r. intros H. exists idx. auto.
  - intros [i [Hs Hn]].
    rewrite (list_index_nodup i TIME_SLOT_ORDER_nodup Hs).
    assert (S i < length TIME_SLOT_ORDER)%nat as Hlt
      by (apply nth_error_Some; congruence).
    rewrite Nat.add_1_r.
    apply Nat.ltb_lt in Hlt. now rewrite Hlt.
Qed.

Lemma get_next_slot_truthy (slot : string) :
  truthy (_get_next_slot slot) = _get_next_slot slot.
Proof.
  unfold _get_next_slot.
  destruct (list_index slot TIME_SLOT_ORDER) as [idx|]; [|reflexivity].
  destruct (idx + 1 <? length TIME_SLOT_ORDER)%nat; [|reflexivity].
  unfold TIME_SLOT_ORDER.
  do 9 (destruct idx as [|idx]; [reflexivity|]). simpl.
  destruct idx; reflexivity.
Qed.

Lemma get_next_slot_off_grid (slot : string) :
  ~ In slot TIME_SLOT_ORDER -> _get_next_slot slot = None.
Proof.
  intros H. unfold _get_next_slot.
  now rewrite (proj2 (list_index_none slot TIME_SLOT_ORDER) H).
Qed.

Lemma meeting_block_emits (lab : bool) (day slot venue : option string) :
  meeting_emits lab day slot venue (meeting_block lab day slot venue).
Proof.
  unfold meeting_block.
  destruct (truthy day) as [d|] eqn:Hd; [|constructor; now left].
  destruct (truthy slot) as [s|] eqn:Hs; [|constructor; now right].
  destruct lab.
  - rewrite get_next_slot_truthy.
    destruct (_get_next_slot s) as [n|] eqn:Hn.
    + apply emits_extended; auto. now apply get_next_slot_iff.
    + apply emits_base; auto. right. intros n Hg.
      apply get_next_slot_iff in Hg. congruence.
  - apply emits_base; auto.
Qed.

(** ** Conflict detection *)

Lemma same_slot_iff (a b : time_slot) :
  same_slot a b = true <-> fst (fst a) = fst (fst b) /\ snd (fst a) = snd (fst b).
Proof.
  destruct a as [[d1 s1] v1], b as [[d2 s2] v2]; simpl.
  rewrite andb_true_iff, !String.eqb_eq. tauto.
Qed.

Lemma conflicts_with_iff (a b : Course) :
  conflicts_with a b = true <-> share_slot a b.
Proof.
  unfold conflicts_with, share_slot. rewrite existsb_exists. split.
  - intros [[[d1 s1] v1] [Ha Hex]]. apply existsb_exists in Hex.
    destruct Hex as [[[d2 s2] v2] [Hb Hs]]. apply same_slot_iff in Hs.
    simpl in Hs. destruct Hs as [-> ->]. exists d2, s2, v1, v2. auto.
  - intros [d [s [va [vb [Ha Hb]]]]]. exists (d, s, va). split; [assumption|].
    apply existsb_exists. exists (d, s, vb). split; [assumption|].
    apply same_slot_iff. auto.
Qed.

Lemma conflicts_with_sym (a b : Course) :
  conflicts_with a b = conflicts_with b a.
Proof.
  apply eq_true_iff_eq. rewrite !conflicts_with_iff. unfold share_slot.
  split; intros [d [s [va [vb [Ha Hb]]]]]; exists d, s, vb, va; auto.
Qed.

Lemma has_conflicts_false_iff (sel : selection) :
  _has_conflicts sel = false <-> conflict_free sel.
Proof.
  unfold conflict_free. induction sel as [|c rest IH]; simpl.
  - split; [|reflexivity]. intros _ i j a b _ Hi. destruct i; discriminate.
  - rewrite orb_false_iff, IH. split.
    + intros [Hc Hrest] i j a b Hij Hi Hj.
      destruct j as [|j]; [lia|]. simpl in Hj.
      destruct i as [|i]; simpl in Hi.
      * injection Hi as <-. intros Hs. apply conflicts_with_iff in Hs.
        assert (existsb (conflicts_with c) rest = true) as Habs.
        { apply existsb_exists. exists b. split; [|assumption].
          eapply nth_error_In; eassumption. }
        congruence.
      * apply (Hrest i j); [lia | assumption | assumption].
    + intros H. split.
      * destruct (existsb (conflicts_with c) rest) eqn:He; [|reflexivity].
        apply existsb_exists in He. destruct He as [b [Hb Hc]].
        apply In_nth_error in Hb. destruct Hb as [j Hj].
        exfalso. apply (H 0%nat (S j) c b); [lia | reflexivity | assumption |].
        now apply conflicts_with_iff.
      * intros i j a b Hij Hi Hj. apply (H (S i) (S j)); [lia | | ]; assumption.
Qed.

Lemma no_meeting_data_slots (c : Course) :
  no_meeting_data c <-> get_time_slots c = [].
Proof.
  unfold no_meeting_data, get_time_slots, meeting_block. split.
  - intros [[H1|H1] [H2|H2]]; rewrite H1, H2;
      repeat match goal with |- context [truthy ?x] => destruct (truthy x) end;
      reflexivity.
  - destruct (truthy (day1 c)), (truthy (slot1 c)); try discriminate;
      destruct (truthy (day2 c)), (truthy (slot2 c)); try discriminate;
      intros _; auto.
Qed.

Lemma conflicts_with_no_slots (c other : Course) :
  get_time_slots c = [] ->
  conflicts_with c other = false /\ conflicts_with other c = false.
Proof.
  intros H. rewrite (conflicts_with_sym other c). split.
  all: unfold conflicts_with; now rewrite H.
Qed.

(** ** Slot patterns *)

Lemma get_slot_pattern_keys (courses : list Course) :
  _get_slot_pattern courses = sorted (slot_keys courses).
Proof. reflexivity. Qed.

Lemma slot_keys_drop (sel : list Course) :
  slot_keys (filter (fun c => match get_time_slots c with [] => false | _ => true end) sel)
  = slot_keys sel.
Proof.
  induction sel as [|c sel IH]; [reflexivity|]. simpl.
  destruct (get_time_slots c) eqn:Hc; simpl; rewrite IH, ?Hc; reflexivity.
Qed.

(** ** Loops with an early return *)

Lemma for_each_app (A : Type) (body : A -> gen_state -> control)
  (l1 l2 : list A) (st : gen_state) :
  for_each body (l1 ++ l2) st =
  match for_each body l1 st with
  | Continue st' => for_each body l2 st'
  | Return v => Return v
  end.
Proof.
  revert st; induction l1 as [|a l1 IH]; intros st; simpl; [reflexivity|].
  destruct (body a st); [apply IH | reflexivity].
Qed.

Lemma for_each_flat_map (A B : Type) (f : A -> list B)
  (body : B -> gen_state -> control) (l : list A) (st : gen_state) :
  for_each body (flat_map f l) st =
  for_each (fun a => for_each body (f a)) l st.
Proof.
  revert st; induction l as [|a l IH]; intros st; simpl; [reflexivity|].
  rewrite for_each_app. destruct (for_each body (f a) st); [apply IH | reflexivity].
Qed.

Lemma for_each_ext (A : Type) (body1 body2 : A -> gen_state -> control)
  (l : list A) (st : gen_state) :
  (forall a st', body1 a st' = body2 a st') ->
  for_each body1 l st = for_each body2 l st.
Proof.
  intros H; revert st; induction l as [|a l IH]; intros st; simpl; [reflexivity|].
  rewrite H. destruct (body2 a st); [apply IH | reflexivity].
Qed.

Lemma for_each_guarded (A B : Type) (g : A -> B) (keep : B -> bool)
  (body : B -> gen_state -> control) (l : list A) (st : gen_state) :
  for_each (fun a st' => if keep (g a) then body (g a) st' else Continue st') l st
  = for_each body (filter keep (map g l)) st.
Proof.
  revert st; induction l as [|a l IH]; intros st; simpl; [reflexivity|].
  destruct (keep (g a)); simpl; [|apply IH].
  destruct (body (g a) st); [apply IH | reflexivity].
Qed.

Lemma wildcard_iteration_flat max_results by_name req_list names st :
  wildcard_iteration max_results by_name req_list names st
  = for_each (emit max_results) (wildcard_candidates by_name req_list names) st.
Proof.
  unfold wildcard_iteration, wildcard_candidates.
  destruct (wildcard_section_options by_name names) as [|o os].
  - simpl. destruct (emit max_results req_list st); reflexivity.
  - apply (for_each_guarded (app req_list)
             (fun full_combo => negb (_has_conflicts full_combo))
             (emit max_results)).
Qed.

Lemma required_iteration_flat max_results by_name combos req_combo st :
  required_iteration max_results by_name combos req_combo st
  = for_each (emit max_results) (required_candidates by_name combos req_combo) st.
Proof.
  unfold required_iteration, required_candidates.
  destruct (_has_conflicts req_combo); [reflexivity|].
  rewrite for_each_flat_map. apply for_each_ext. intros names st'.
  apply wildcard_iteration_flat.
Qed.

Lemma generation_loop_flat max_results by_name combos required_options st :
  for_each (required_iteration max_results by_name combos)
           (product required_options) st
  = for_each (emit max_results) (enumeration by_name combos required_options) st.
Proof.
  unfold enumeration. rewrite for_each_flat_map. apply for_each_ext.
  intros req st'. apply required_iteration_flat.
Qed.

(** The emit loop keeps the first [max(1, max_results)] selections with
    new slot patterns. *)
Lemma emit_loop_outcome (max_results : Z) (l : list selection) (st : gen_state) :
  (Z.of_nat (length (valid_timetables st)) < Z.max 1 max_results)%Z ->
  outcome (for_each (emit max_results) l st)
  = valid_timetables st
    ++ firstn (Z.to_nat (Z.max 1 max_results) - length (valid_timetables st))
              (dedupe (seen_slot_patterns st) l).
Proof.
  revert st; induction l as [|sel l IH]; intros st Hlen; simpl.
  - rewrite firstn_nil. now rewrite app_nil_r.
  - unfold emit at 1.
    destruct (in_dec pattern_eq_dec (_get_slot_pattern sel) (seen_slot_patterns st))
      as [Hin|Hnin].
    + now apply IH.
    + cbn [valid_timetables seen_slot_patterns].
      rewrite length_app. simpl length.
      rewrite Z.geb_leb.
      destruct (Z.leb_spec max_results (Z.of_nat (length (valid_timetables st) + 1)))
        as [Hcap|Hcap].
      * simpl outcome.
        replace (Z.to_nat (Z.max 1 max_results) - length (valid_timetables st))%nat
          with 1%nat by lia.
        reflexivity.
      * rewrite IH; cbn [valid_timetables seen_slot_patterns].
        -- rewrite length_app. simpl length. rewrite <- app_assoc. simpl.
           replace (Z.to_nat (Z.max 1 max_results) - length (valid_timetables st))%nat
             with (S (Z.to_nat (Z.max 1 max_results)
                      - (length (valid_timetables st) + 1)))%nat by lia.
           reflexivity.
        -- rewrite length_app. simpl length. lia.
Qed.

(** ** Deduplication by slot pattern *)

Lemma dedupe_incl (seen : list (list string)) (l : list selection) (sel : selection) :
  In sel (dedupe seen l) -> In sel l.
Proof.
  revert seen; induction l as [|x l IH]; intros seen; simpl; [tauto|].
  destruct (in_dec pattern_eq_dec (_get_slot_pattern x) seen).
  - intros H. right. eapply IH; eassumption.
  - intros [H|H]; [now left | right; eapply IH; eassumption].
Qed.

Lemma dedupe_unseen (seen : list (list string)) (l : list selection) (sel : selection) :
  In sel (dedupe seen l) -> ~ In (_get_slot_pattern sel) seen.
Proof.
  revert seen; induction l as [|x l IH]; intros seen; simpl; [tauto|].
  destruct (in_dec pattern_eq_dec (_get_slot_pattern x) seen) as [Hin|Hnin].
  - apply IH.
  - intros [<-|H]; [assumption|].
    apply IH in H. intros Hs. apply H. now right.
Qed.

Lemma dedupe_nodup (seen : list (list string)) (l : list selection) :
  NoDup (map _get_slot_pattern (dedupe seen l)).
Proof.
  revert seen; induction l as [|x l IH]; intros seen; simpl; [constructor|].
  destruct (in_dec pattern_eq_dec (_get_slot_pattern x) seen) as [Hin|Hnin].
  - apply IH.
  - simpl. constructor; [|apply IH].
    intros Hx. apply in_map_iff in Hx. destruct Hx as [y [Hy Hin]].
    apply dedupe_unseen in Hin. apply Hin. left. congruence.
Qed.

Lemma dedupe_first (seen : list (list string)) (l : list selection) (sel : selection) :
  In sel (dedupe seen l) -> first_with_signature l sel.
Proof.
  unfold first_with_signature.
  revert seen; induction l as [|x l IH]; intros seen; simpl; [tauto|].
  destruct (in_dec pattern_eq_dec (_get_slot_pattern x) seen) as [Hin|Hnin].
  - intros H. pose proof (dedupe_unseen _ _ _ H) as Hun.
    destruct (IH _ H) as [before [after [-> Hb]]].
    exists (x :: before), after. split; [reflexivity|].
    intros other [<-|Ho]; [congruence | now apply Hb].
  - intros [<-|H].
    + exists [], l. split; [reflexivity | intros other []].
    + pose proof (dedupe_unseen _ _ _ H) as Hun.
      destruct (IH _ H) as [before [after [-> Hb]]].
      exists (x :: before), after. split; [reflexivity|].
      intros other [<-|Ho]; [|now apply Hb].
      intros He. apply Hun. left. assumption.
Qed.

Lemma firstn_In (A : Type) (n : nat) (l : list A) (x : A) :
  In x (firstn n l) -> In x l.
Proof.
  intros H. rewrite <- (firstn_skipn n l). apply in_or_app. now left.
Qed.

Lemma firstn_map_nodup (A B : Type) (f : A -> B) (n : nat) (l : list A) :
  NoDup (map f l) -> NoDup (map f (firstn n l)).
Proof.
  intros H. rewrite <- (firstn_skipn n l), map_app in H.
  eapply NoDup_app_remove_r; eassumption.
Qed.

Lemma nodup_map_inj (A B : Type) (f : A -> B) (l : list A) (x y : A) :
  NoDup (map f l) -> In x l -> In y l -> f x = f y -> x = y.
Proof.
  induction l as [|a l IH]; simpl; [tauto|].
  intros Hnd Hx Hy He. inversion Hnd as [|? ? Hna Hnd']; subst.
  destruct Hx as [<-|Hx], Hy as [<-|Hy]; auto.
  - exfalso. apply Hna. rewrite He. now apply in_map.
  - exfalso. apply Hna. rewrite <- He. now apply in_map.
Qed.

Lemma filter_all_true (A : Type) (f : A -> bool) (l : list A) :
  (forall x, In x l -> f x = true) -> filter f l = l.
Proof.
  induction l as [|a l IH]; intros H; simpl; [reflexivity|].
  rewrite (H a (or_introl eq_refl)). f_equal. apply IH.
  intros x Hx. apply H. now right.
Qed.

(** ** Dictionaries *)

Lemma od_get_set_same (V : Type) (k : string) (v : V) (d : odict V) :
  od_get k (od_set k v d) = Some v.
Proof.
  induction d as [|[k' v'] d IH]; simpl.
  - now rewrite String.eqb_refl.
  - destruct (String.eqb_spec k' k) as [->|Hne]; simpl.
    + now rewrite String.eqb_refl.
    + destruct (String.eqb_spec k' k); [contradiction | assumption].
Qed.

Lemma od_get_set_other (V : Type) (k k0 : string) (v : V) (d : odict V) :
  k <> k0 -> od_get k0 (od_set k v d) = od_get k0 d.
Proof.
  intros Hne. induction d as [|[k' v'] d IH]; simpl.
  - destruct (String.eqb_spec k k0); [contradiction | reflexivity].
  - destruct (String.eqb_spec k' k) as [->|Hk]; simpl.
    + destruct (String.eqb_spec k k0); [contradiction | reflexivity].
    + destruct (String.eqb_spec k' k0); [reflexivity | assumption].
Qed.

Lemma od_get_set (V : Type) (k k0 : string) (v : V) (d : odict V) :
  od_get k0 (od_set k v d) = if String.eqb k k0 then Some v else od_get k0 d.
Proof.
  destruct (String.eqb_spec k k0) as [->|Hne].
  - apply od_get_set_same.
  - now apply od_get_set_other.
Qed.

Lemma od_mem_keys (V : Type) (k : string) (d : odict V) :
  od_mem k d = true <-> In k (od_keys d).
Proof.
  unfold od_mem, od_keys. induction d as [|[k' v'] d IH]; simpl.
  - split; [discriminate | tauto].
  - destruct (String.eqb_spec k' k) as [->|Hne].
    + split; auto.
    + rewrite IH. split; [auto | intros [H|H]; [contradiction | assumption]].
Qed.

Lemma od_get_In (V : Type) (k : string) (v : V) (d : odict V) :
  od_get k d = Some v -> In (k, v) d.
Proof.
  induction d as [|[k' v'] d IH]; simpl; [discriminate|].
  destruct (String.eqb_spec k' k) as [->|Hne].
  - intros [= ->]. now left.
  - intros H. right. now apply IH.
Qed.

Lemma od_In_get (V : Type) (k : string) (v : V) (d : odict V) :
  NoDup (od_keys d) -> In (k, v) d -> od_get k d = Some v.
Proof.
  unfold od_keys. induction d as [|[k' v'] d IH]; simpl; [tauto|].
  intros Hnd Hin. inversion Hnd as [|? ? Hk Hnd']; subst.
  destruct Hin as [[= -> ->]|Hin].
  - now rewrite String.eqb_refl.
  - destruct (String.eqb_spec k' k) as [->|Hne].
    + exfalso. apply Hk. change k with (fst (k, v)). now apply in_map.
    + now apply IH.
Qed.

Lemma od_set_keys_In (V : Type) (k k0 : string) (v : V) (d : odict V) :
  In k0 (od_keys (od_set k v d)) <-> k0 = k \/ In k0 (od_keys d).
Proof.
  rewrite <- !od_mem_keys. unfold od_mem. rewrite od_get_set.
  destruct (String.eqb_spec k k0) as [->|Hne].
  - split; auto.
  - split; [auto | intros [H|H]; [congruence | assumption]].
Qed.

Lemma od_set_nodup (V : Type) (k : string) (v : V) (d : odict V) :
  NoDup (od_keys d) -> NoDup (od_keys (od_set k v d)).
Proof.
  induction d as [|[k' v'] d IH]; simpl; intros Hnd.
  - constructor; [tauto | constructor].
  - inversion Hnd as [|? ? Hk Hnd']; subst.
    destruct (String.eqb_spec k' k) as [->|Hne]; simpl.
    + constructor; assumption.
    + constructor; [|now apply IH].
      intros Hin. apply od_set_keys_In in Hin. destruct Hin; [congruence | auto].
Qed.

(** ** Grouping by short title *)

Lemma group_step_get (grouped : odict (list Course)) (course : Course) (name : string) :
  od_get name (group_step grouped course) =
  if String.eqb (short_title course) name
  then Some (od_get_default name grouped [] ++ [course])
  else od_get name grouped.
Proof.
  unfold group_step, od_append, od_get_default, od_mem.
  destruct (od_get (short_title course) grouped) as [old|] eqn:Hold.
  - rewrite od_get_set. destruct (String.eqb_spec (short_title course) name) as [<-|Hne].
    + now rewrite Hold.
    + reflexivity.
  - rewrite od_get_set_same, !od_get_set.
    destruct (String.eqb_spec (short_title course) name) as [<-|Hne].
    + now rewrite Hold.
    + reflexivity.
Qed.

Lemma group_step_nodup (grouped : odict (list Course)) (course : Course) :
  NoDup (od_keys grouped) -> NoDup (od_keys (group_step grouped course)).
Proof.
  intros H. unfold group_step, od_append.
  destruct (od_mem (short_title course) grouped); repeat apply od_set_nodup; assumption.
Qed.

Lemma group_fold_get (l : list Course) (acc : odict (list Course)) (name : string) :
  od_get name (fold_left group_step l acc) =
  match od_get_default name acc [] ++ group_of name l with
  | [] => od_get name acc
  | g => Some g
  end.
Proof.
  revert acc; induction l as [|c l IH]; intros acc; simpl.
  - rewrite app_nil_r. unfold od_get_default.
    destruct (od_get name acc) as [[|x g]|]; reflexivity.
  - rewrite IH. unfold od_get_default at 1. rewrite !group_step_get.
    destruct (String.eqb_spec (short_title c) name) as [Heq|Hne].
    + rewrite <- app_assoc. simpl.
      destruct (od_get_default name acc [] ++ c :: group_of name l) eqn:Hg;
        [|reflexivity].
      now destruct (od_get_default name acc []).
    + unfold od_get_default. reflexivity.
Qed.

Lemma get_unique_courses_get (l : list Course) (name : string) :
  od_get name (get_unique_courses l) =
  match group_of name l with
  | [] => None
  | g => Some g
  end.
Proof.
  unfold get_unique_courses. apply (group_fold_get l [] name).
Qed.

Lemma get_unique_courses_nodup (l : list Course) :
  NoDup (od_keys (get_unique_courses l)).
Proof.
  unfold get_unique_courses.
  change (NoDup (od_keys (fold_left group_step l []))).
  assert (forall acc, NoDup (od_keys acc) -> NoDup (od_keys (fold_left group_step l acc))) as H.
  { induction l as [|c l IH]; intros acc Hacc; simpl; [assumption|].
    apply IH. now apply group_step_nodup. }
  apply H. constructor.
Qed.

(** Every entry of the grouping is the non-empty list of the courses with
    that short title. *)
Lemma get_unique_courses_entry (l : list Course) (name : string) (g : list Course) :
  In (name, g) (get_unique_courses l) -> g = group_of name l /\ g <> [].
Proof.
  intros Hin. apply od_In_get in Hin; [|apply get_unique_courses_nodup].
  rewrite get_unique_courses_get in Hin.
  destruct (group_of name l) eqn:Hg; [discriminate|].
  injection Hin as <-. split; [reflexivity | discriminate].
Qed.

Lemma group_of_In (name : string) (l : list Course) (c : Course) :
  In c (group_of name l) <-> In c l /\ short_title c = name.
Proof.
  unfold group_of. rewrite filter_In, String.eqb_eq. tauto.
Qed.

(** ** The constraint filter *)

Section FilterFacts.

Variable lower : string -> string.
Variable courses : list Course.

Lemma filter_courses_In (constraints : TimetableConstraints) (c : Course) :
  In c (filter_courses lower courses constraints)
  <-> In c courses /\ accepted lower constraints c = true.
Proof. unfold filter_courses. apply filter_In. Qed.

Lemma accepted_iff (constraints : TimetableConstraints) (c : Course) :
  accepted lower constraints c = true
  <-> prefix "BCS-" (section c) = true
      /\ (In (short_title c) (required_courses constraints)
          \/ prefix (get_semester_prefix constraints) (section c) = true)
      /\ instructor_excluded lower constraints c = false
      /\ slot_excluded constraints c = false.
Proof.
  unfold accepted. rewrite <- str_in_iff.
  destruct (prefix "BCS-" (section c)); simpl; [|intuition discriminate].
  destruct (str_in (short_title c) (required_courses constraints)); simpl.
  - destruct (instructor_excluded lower constraints c); [intuition discriminate|].
    destruct (slot_excluded constraints c); intuition discriminate.
  - destruct (prefix (get_semester_prefix constraints) (section c)); simpl;
      [|intuition discriminate].
    destruct (instructor_excluded lower constraints c); [intuition discriminate|].
    destruct (slot_excluded constraints c); intuition discriminate.
Qed.

Lemma existsb_incl (A : Type) (p : A -> bool) (l l' : list A) :
  incl l' l -> existsb p l' = true -> existsb p l = true.
Proof.
  intros Hincl H. apply existsb_exists in H. destruct H as [x [Hx Hp]].
  apply existsb_exists. exists x. auto.
Qed.

Lemma instructor_excluded_mono (c1 c2 : TimetableConstraints) (c : Course) :
  incl (excluded_instructors c2) (excluded_instructors c1) ->
  instructor_excluded lower c1 c = false ->
  instructor_excluded lower c2 c = false.
Proof.
  intros Hincl H. unfold instructor_excluded in *.
  match goal with |- ?e = false => destruct e eqn:He end; [|reflexivity].
  apply (existsb_incl _ Hincl) in He. congruence.
Qed.

Lemma slot_excluded_mono (c1 c2 : TimetableConstraints) (c : Course) :
  incl (excluded_time_slots c2) (excluded_time_slots c1) ->
  slot_excluded c1 c = false ->
  slot_excluded c2 c = false.
Proof.
  intros Hincl H. unfold slot_excluded in *.
  match goal with |- ?e = false => destruct e eqn:He end; [|reflexivity].
  apply existsb_exists in He. destruct He as [slot [Hs He]].
  apply (existsb_incl _ Hincl) in He.
  assert (existsb
            (fun slot : time_slot =>
               existsb (fun exc_slot =>
                          negb (String.eqb (snd (fst slot)) "")
                          && prefix exc_slot (snd (fst slot)))
                       (excluded_time_slots c1))
            (get_time_slots c) = true) as Habs
    by (apply existsb_exists; eauto).
  congruence.
Qed.

End FilterFacts.

(** ** Required options *)

Lemma label_matchesb_iff (pref : section_pref) (c : Course) :
  label_matchesb pref c = true <-> label_matches pref c.
Proof.
  destruct pref; simpl; [apply String.eqb_eq | apply str_in_iff].
Qed.


Lemma required_option_found (constraints : TimetableConstraints)
  (grouped : odict (list Course)) (name : string) (sections : list Course) :
  od_get name grouped = Some sections ->
  exists options,
    fst (required_option constraints grouped name) = Some options
    /\ incl options sections
    /\ (sections <> [] -> options <> []).
Proof.
  intros Hg. unfold required_option. rewrite Hg.
  destruct (pref_truthy _ && pref_not_any _).
  - match goal with
    | |- context [match ?p with PrefStr s => @?a s | PrefList l => @?b l end] =>
        assert (incl (match p with PrefStr s => a s | PrefList l => b l end) sections)
          as Hincl
          by (destruct p; intros x Hx; apply filter_In in Hx; tauto);
        destruct (match p with PrefStr s => a s | PrefList l => b l end) eqn:Hf
    end.
    + exists sections. simpl. split; [reflexivity|]. split; [apply incl_refl | auto].
    + eexists. simpl. split; [reflexivity|]. split; [assumption | discriminate].
  - exists sections. simpl. split; [reflexivity|]. split; [apply incl_refl | auto].
Qed.

Lemma required_option_missing (constraints : TimetableConstraints)
  (grouped : odict (list Course)) (name : string) :
  od_get name grouped = None ->
  required_option constraints grouped name = (None, [CourseNotFound name]).
Proof. intros Hg. unfold required_option. now rewrite Hg. Qed.

Lemma resolve_required_fold (constraints : TimetableConstraints)
  (grouped : odict (list Course)) (names : list string)
  (acc : list (list Course) * list diagnostic) :
  fst (fold_left (required_step constraints grouped) names acc)
  = fst acc
    ++ flat_map (fun name =>
                   match fst (required_option constraints grouped name) with
                   | Some o => [o]
                   | None => []
                   end) names.
Proof.
  revert acc; induction names as [|n names IH]; intros [ro log]; simpl.
  - now rewrite app_nil_r.
  - rewrite IH. unfold required_step.
    destruct (required_option constraints grouped n) as [[o|] warn]; simpl.
    + now rewrite <- app_assoc.
    + reflexivity.
Qed.

Lemma resolve_required_options (constraints : TimetableConstraints)
  (grouped : odict (list Course)) :
  fst (resolve_required constraints grouped)
  = flat_map (fun name =>
                match fst (required_option constraints grouped name) with
                | Some o => [o]
                | None => []
                end) (required_courses constraints).
Proof.
  unfold resolve_required.
  apply (resolve_required_fold constraints grouped (required_courses constraints) ([], [])).
Qed.

(** ** itertools *)

Lemma product_In (A : Type) (pools : list (list A)) (x : list A) :
  In x (product pools) -> Forall2 (fun a pool => In a pool) x pools.
Proof.
  revert x; induction pools as [|pool pools IH]; intros x; simpl.
  - intros [<-|[]]. constructor.
  - intros H. apply in_flat_map in H. destruct H as [a [Ha H]].
    apply in_map_iff in H. destruct H as [x' [<- Hx']].
    constructor; [assumption | now apply IH].
Qed.

Lemma combinations_In (A : Type) (pool : list A) (r : nat) (c : list A) :
  In c (combinations pool r) -> length c = r /\ incl c pool.
Proof.
  revert r c; induction pool as [|x pool IH]; intros r c; destruct r as [|r]; simpl.
  - intros [<-|[]]. split; [reflexivity | apply incl_nil_l].
  - tauto.
  - intros [<-|[]]. split; [reflexivity | apply incl_nil_l].
  - intros H. apply in_app_or in H. destruct H as [H|H].
    + apply in_map_iff in H. destruct H as [c' [<- Hc']].
      destruct (IH _ _ Hc') as [Hlen Hincl]. split; [simpl; congruence|].
      intros y [<-|Hy]; [now left | right; now apply Hincl].
    + destruct (IH _ _ H) as [Hlen Hincl]. split; [assumption|].
      intros y Hy. right. now apply Hincl.
Qed.

(** ** Items assigned one after the other *)

Lemma set_items_get (V : Type) (items : list (string * V)) (d : odict V)
  (k : string) (v : V) :
  od_get k (fold_left (@set_item V) items d) = Some v ->
  od_get k d = Some v \/ In (k, v) items.
Proof.
  revert d; induction items as [|[k0 v0] items IH]; intros d; simpl; [auto|].
  intros H. apply IH in H. destruct H as [H|H]; [|auto].
  unfold set_item in H. simpl in H. rewrite od_get_set in H.
  destruct (String.eqb_spec k0 k) as [->|Hne]; [|auto].
  injection H as ->. auto.
Qed.

Lemma set_items_mem (V : Type) (items : list (string * V)) (d : odict V) (k : string) :
  od_mem k d = true \/ In k (map fst items) ->
  od_mem k (fold_left (@set_item V) items d) = true.
Proof.
  revert d; induction items as [|[k0 v0] items IH]; intros d; simpl.
  - intros [H|[]]. assumption.
  - intros H. apply IH. unfold set_item; simpl.
    destruct H as [H|[H|H]]; [left | left | now right].
    + apply od_mem_keys, od_set_keys_In. right. now apply od_mem_keys.
    + apply od_mem_keys, od_set_keys_In. left. now symmetry.
Qed.

(** ** Wildcard pools *)

Lemma od_push_get (A : Type) (key : string) (x : A) (d : odict (list A)) (k : string) :
  od_get k (od_push key x d) =
  if String.eqb key k then Some (od_get_default k d [] ++ [x]) else od_get k d.
Proof.
  unfold od_push, od_append, od_get_default, od_mem.
  destruct (od_get key d) as [old|] eqn:Hold.
  - rewrite od_get_set. destruct (String.eqb_spec key k) as [<-|Hne].
    + now rewrite Hold.
    + reflexivity.
  - rewrite od_get_set_same, !od_get_set.
    destruct (String.eqb_spec key k) as [<-|Hne].
    + now rewrite Hold.
    + reflexivity.
Qed.

Lemma od_push_keys (A : Type) (key : string) (x : A) (d : odict (list A)) (k : string) :
  In k (od_keys d) -> In k (od_keys (od_push key x d)).
Proof.
  intros H. unfold od_push, od_append.
  destruct (od_mem key d); rewrite !od_set_keys_In; auto.
Qed.

Lemma od_push_nodup (A : Type) (key : string) (x : A) (d : odict (list A)) :
  NoDup (od_keys d) -> NoDup (od_keys (od_push key x d)).
Proof.
  intros H. unfold od_push, od_append.
  destruct (od_mem key d); repeat apply od_set_nodup; assumption.
Qed.

Lemma od_push_values (A : Type) (P : A -> Prop) (key : string) (x : A)
  (d : odict (list A)) :
  all_values P d -> P x -> all_values P (od_push key x d).
Proof.
  intros Hd Hx k v. rewrite od_push_get.
  destruct (String.eqb_spec key k) as [->|Hne]; [|apply Hd].
  intros [= <-]. apply Forall_app. split; [|now constructor].
  unfold od_get_default. destruct (od_get k d) as [old|] eqn:Hold.
  - eapply Hd; eassumption.
  - constructor.
Qed.

Section WildcardPools.

Variable constraints : TimetableConstraints.
Variable filtered : list Course.

Lemma add_to_pool_push (pools : odict (list Course)) (course : Course) :
  add_to_pool constraints pools course = pools
  \/ (str_in (short_title course) (required_courses constraints) = false
      /\ exists cat, add_to_pool constraints pools course = od_push cat course pools).
Proof.
  unfold add_to_pool.
  destruct (str_in (short_title course) (required_courses constraints)); [now left|].
  destruct (find _ _) as [cat|]; [|now left].
  right. split; [reflexivity|]. exists cat. reflexivity.
Qed.

Lemma empty_pools_inv (cats : list string) (d : odict (list Course)) :
  all_values (wildcard_eligible constraints filtered) d -> NoDup (od_keys d) ->
  let d' := fold_left (fun d cat => od_set cat [] d) cats d in
  all_values (wildcard_eligible constraints filtered) d' /\ NoDup (od_keys d')
  /\ forall cat, In cat (od_keys d) \/ In cat cats -> In cat (od_keys d').
Proof.
  revert d; induction cats as [|cat cats IH]; intros d Hv Hnd; simpl.
  - split; [assumption|]. split; [assumption|]. intros cat [H|[]]. assumption.
  - destruct (IH (od_set cat [] d)) as [Hv' [Hnd' Hk']].
    + intros k v. rewrite od_get_set.
      destruct (String.eqb cat k); [intros [= <-]; constructor | apply Hv].
    + now apply od_set_nodup.
    + split; [assumption|]. split; [assumption|].
      intros cat0 H. apply Hk'. rewrite od_set_keys_In. intuition auto.
Qed.

Lemma fill_pools_inv (l : list Course) (d : odict (list Course)) :
  incl l filtered ->
  all_values (wildcard_eligible constraints filtered) d -> NoDup (od_keys d) ->
  let d' := fold_left (add_to_pool constraints) l d in
  all_values (wildcard_eligible constraints filtered) d' /\ NoDup (od_keys d')
  /\ forall cat, In cat (od_keys d) -> In cat (od_keys d').
Proof.
  revert d; induction l as [|c l IH]; intros d Hincl Hv Hnd; simpl.
  - auto.
  - assert (incl l filtered) as Hl by (intros x Hx; apply Hincl; now right).
    destruct (add_to_pool_push d c) as [->|[Hreq [cat ->]]].
    + now apply IH.
    + destruct (IH (od_push cat c d) Hl) as [Hv' [Hnd' Hk']].
      * apply od_push_values; [assumption|]. split; [apply Hincl; now left | assumption].
      * now apply od_push_nodup.
      * split; [assumption|]. split; [assumption|].
        intros k Hk. apply Hk'. now apply od_push_keys.
Qed.

Lemma fill_wildcard_pools_inv :
  let pools := fill_wildcard_pools constraints filtered in
  all_values (wildcard_eligible constraints filtered) pools /\ NoDup (od_keys pools)
  /\ forall cat, In cat (od_keys (wildcard_counts constraints)) ->
                 In cat (od_keys pools).
Proof.
  unfold fill_wildcard_pools.
  destruct (@empty_pools_inv (od_keys (wildcard_counts constraints)) [])
    as [Hv [Hnd Hk]].
  { intros k v H. discriminate. }
  { constructor. }
  destruct (@fill_pools_inv filtered _ (incl_refl _) Hv Hnd) as [Hv' [Hnd' Hk']].
  split; [assumption|]. split; [assumption|].
  intros cat Hc. apply Hk', Hk. now right.
Qed.

End WildcardPools.

(** ** Wildcard names and their sections *)

Lemma group_wildcards_fold (pools : odict (list Course)) :
  group_wildcards pools = fold_left group_wildcards_step pools ([], []).
Proof. reflexivity. Qed.

Lemma group_wildcards_step_inv (P : Course -> Prop)
  (acc : odict (list string) * odict (list Course)) (cat : string)
  (pool : list Course) :
  Forall P pool ->
  names_resolved P (fst acc) (snd acc) ->
  names_resolved P (fst (group_wildcards_step acc (cat, pool)))
                 (snd (group_wildcards_step acc (cat, pool))).
Proof.
  destruct acc as [by_cat by_name]. intros Hpool [H1 H2]. simpl. split.
  - intros name sections Hget. apply set_items_get in Hget.
    destruct Hget as [Hget|Hin]; [eapply H1; eassumption|].
    apply get_unique_courses_entry in Hin. destruct Hin as [-> Hne].
    split; [assumption|]. apply Forall_forall. intros c Hc.
    apply group_of_In in Hc. destruct Hc as [Hc _].
    revert c Hc. now apply Forall_forall.
  - intros cat0 names name Hget Hin. apply set_items_mem.
    rewrite od_get_set in Hget.
    destruct (String.eqb cat cat0).
    + injection Hget as <-. now right.
    + left. eapply H2; eassumption.
Qed.

Lemma group_wildcards_fold_inv (P : Course -> Prop) (pools : odict (list Course))
  (acc : odict (list string) * odict (list Course)) :
  (forall cat pool, In (cat, pool) pools -> Forall P pool) ->
  names_resolved P (fst acc) (snd acc) ->
  let r := fold_left group_wildcards_step pools acc in
  names_resolved P (fst r) (snd r)
  /\ forall cat, od_mem cat (fst acc) = true \/ In cat (od_keys pools) ->
                 od_mem cat (fst r) = true.
Proof.
  revert acc; induction pools as [|[cat pool] pools IH]; intros acc Hp Hacc; simpl.
  - split; [assumption|]. intros cat [H|[]]. assumption.
  - destruct (IH (group_wildcards_step acc (cat, pool))) as [Hr Hk].
    + intros c p Hin. apply (Hp c p). now right.
    + apply group_wildcards_step_inv; [|assumption]. apply (Hp cat pool). now left.
    + split; [assumption|]. intros cat0 H. apply Hk.
      destruct acc as [by_cat by_name]. simpl.
      destruct H as [H|[H|H]]; [left | left | now right].
      * apply od_mem_keys, od_set_keys_In. right. now apply od_mem_keys.
      * apply od_mem_keys, od_set_keys_In. left. now symmetry.
Qed.

Lemma group_wildcards_inv (constraints : TimetableConstraints)
  (filtered : list Course) :
  let r := group_wildcards (fill_wildcard_pools constraints filtered) in
  names_resolved (wildcard_eligible constraints filtered) (fst r) (snd r)
  /\ forall cat, In cat (od_keys (wildcard_counts constraints)) ->
                 od_mem cat (fst r) = true.
Proof.
  destruct (fill_wildcard_pools_inv constraints filtered) as [Hv [Hnd Hk]].
  rewrite group_wildcards_fold.
  destruct (@group_wildcards_fold_inv (wildcard_eligible constraints filtered)
              (fill_wildcard_pools constraints filtered) ([], [])) as [Hr Hm].
  - intros cat pool Hin. apply (Hv cat). now apply od_In_get.
  - split; [intros name sections H; discriminate | intros cat names name H; discriminate].
  - split; [assumption|]. intros cat Hc. apply Hm. right. now apply Hk.
Qed.

Lemma wildcard_combos_loop_inv (by_cat : odict (list string))
  (items : list (string * Z)) (all : list (list string)) (n : Z)
  (combos : list (list string)) :
  (forall cat count, In (cat, count) items -> od_mem cat by_cat = true) ->
  (forall c, In c all ->
             Z.of_nat (length c) = n /\ Forall (offered_name by_cat) c) ->
  wildcard_combos_loop items by_cat all = Returns combos ->
  forall c, In c combos ->
            Z.of_nat (length c) = (n + quota_total items by_cat)%Z
            /\ Forall (offered_name by_cat) c.
Proof.
  revert all n; induction items as [|[cat count] items IH]; intros all n Hmem Hall; simpl.
  - intros [= <-] c Hc. rewrite Z.add_0_r. now apply Hall.
  - assert (od_mem cat by_cat = true) as Hcat by (apply (Hmem cat count); now left).
    assert (forall c k, In (c, k) items -> od_mem c by_cat = true) as Hmem'
      by (intros c k Hin; apply (Hmem c k); now right).
    rewrite Hcat. simpl negb. simpl orb.
    destruct (Z.eqb_spec count 0) as [->|Hnz].
    + intros Hloop c Hc.
      replace (Z.min 0 (Z.of_nat (length (od_get_default cat by_cat [])))) with 0%Z by lia.
      now apply (IH all n Hmem' Hall Hloop).
    + destruct (Z.ltb_spec (Z.min count (Z.of_nat (length (od_get_default cat by_cat [])))) 0)
        as [Hneg|Hpos]; [discriminate|].
      intros Hloop c Hc.
      rewrite Z.add_assoc.
      apply (IH _ (n + Z.min count (Z.of_nat (length (od_get_default cat by_cat []))))%Z
                Hmem') with (2 := Hloop); [|assumption].
      intros c' Hc'. apply in_flat_map in Hc'. destruct Hc' as [existing [He Hc']].
      apply in_map_iff in Hc'. destruct Hc' as [cat_combo [<- Hcc]].
      apply combinations_In in Hcc. destruct Hcc as [Hlen Hincl].
      destruct (Hall _ He) as [Hn Hoff]. split.
      * rewrite length_app, Nat2Z.inj_add, Hn, Hlen. lia.
      * apply Forall_app. split; [assumption|].
        apply Forall_forall. intros name Hname. apply Hincl in Hname.
        unfold od_mem in Hcat. unfold od_get_default in Hname.
        destruct (od_get cat by_cat) as [names|] eqn:Hget; [|discriminate].
        exists cat, names. auto.
Qed.


Lemma wildcard_section_options_resolved (P : Course -> Prop)
  (by_cat : odict (list string)) (by_name : odict (list Course))
  (names : list string) (wcs : list Course) :
  names_resolved P by_cat by_name ->
  Forall (offered_name by_cat) names ->
  In wcs (product (wildcard_section_options by_name names)) ->
  length wcs = length names /\ Forall P wcs.
Proof.
  intros [H1 H2]. revert wcs; induction names as [|name names IH]; intros wcs Hoff.
  - simpl. intros [<-|[]]. split; [reflexivity | constructor].
  - inversion Hoff as [|? ? [cat [ns [Hget Hin]]] Hoff']; subst.
    pose proof (H2 _ _ _ Hget Hin) as Hmem. unfold od_mem in Hmem.
    unfold wildcard_section_options. simpl. unfold od_get_default.
    destruct (od_get name by_name) as [sections|] eqn:Hs; [|discriminate].
    destruct (H1 _ _ Hs) as [Hne HP].
    destruct sections as [|s0 sections]; [congruence|].
    cbn [app product].
    intros Hw. apply in_flat_map in Hw. destruct Hw as [a [Ha Hw]].
    apply in_map_iff in Hw. destruct Hw as [wcs' [<- Hw']].
    destruct (IH wcs' Hoff' Hw') as [Hlen HPw]. split; [simpl; congruence|].
    constructor; [|assumption]. revert a Ha. now apply Forall_forall.
Qed.

(** ** The generator *)

Lemma enumeration_In (by_name : odict (list Course))
  (combos : list (list string)) (required_options : list (list Course))
  (sel : selection) :
  In sel (enumeration by_name combos required_options) ->
  _has_conflicts sel = false
  /\ exists req names wcs,
      In req (product required_options) /\ In names combos
      /\ In wcs (product (wildcard_section_options by_name names))
      /\ sel = req ++ wcs.
Proof.
  unfold enumeration. intros H. apply in_flat_map in H.
  destruct H as [req [Hreq H]]. unfold required_candidates in H.
  destruct (_has_conflicts req) eqn:Hc; [contradiction|].
  apply in_flat_map in H. destruct H as [names [Hnames H]].
  unfold wildcard_candidates in H.
  destruct (wildcard_section_options by_name names) as [|o os] eqn:Ho.
  - destruct H as [<-|[]]. split; [assumption|].
    exists req, names, []. rewrite Ho, app_nil_r. simpl. auto.
  - apply filter_In in H. destruct H as [H Hok].
    apply in_map_iff in H. destruct H as [wcs [<- Hw]].
    split; [now apply negb_true_iff in Hok|].
    exists req, names, wcs. rewrite Ho. auto.
Qed.

Lemma required_options_titles (constraints : TimetableConstraints)
  (filtered : list Course) (names : list string) (req : list Course) :
  Forall2 (fun a pool => In a pool) req
    (flat_map (fun name =>
                 match fst (required_option constraints
                              (get_unique_courses filtered) name) with
                 | Some o => [o]
                 | None => []
                 end) names) ->
  map short_title req
  = filter (fun name => od_mem name (get_unique_courses filtered)) names
  /\ Forall (fun c => In c filtered) req.
Proof.
  revert req; induction names as [|name names IH]; intros req; simpl.
  - intros H. inversion H. split; [reflexivity | constructor].
  - unfold od_mem.
    destruct (od_get name (get_unique_courses filtered)) as [sections|] eqn:Hg.
    + destruct (required_option_found constraints _ _ Hg) as [options [Ho [Hincl _]]].
      rewrite Ho. simpl. intros H. inversion H as [|a ? req' ? Ha Hrest]; subst.
      destruct (IH _ Hrest) as [IH1 IH2].
      apply Hincl in Ha. rewrite get_unique_courses_get in Hg.
      destruct (group_of name filtered) eqn:Hgo; [discriminate|].
      injection Hg as <-. rewrite <- Hgo in Ha. apply group_of_In in Ha.
      destruct Ha as [Hin Hst]. split.
      * simpl. now rewrite Hst, IH1.
      * now constructor.
    + rewrite (required_option_missing constraints _ _ Hg). simpl. apply IH.
Qed.

Section Generation.

Variable lower : string -> string.
Variable courses : list Course.
Variable constraints : TimetableConstraints.

(** What the call returns: the first selections with new slot patterns
    of the enumeration, up to the effective cap. *)
Lemma generate_returns (max_results : Z) (res : list selection) :
  snd (generate_timetables lower courses constraints max_results) = Returns res ->
  res = firstn (effective_cap max_results)
               (dedupe [] (generation_order lower courses constraints)).
Proof.
  unfold generate_timetables, generation_order.
  destruct (resolve_required constraints _) as [required_options log].
  destruct (group_wildcards _) as [by_cat by_name].
  destruct required_options as [|o os].
  - simpl. intros [= <-]. now rewrite firstn_nil.
  - destruct (_generate_wildcard_combos _ _) as [combos|]; [|discriminate].
    simpl snd. intros [= <-].
    change (flat_map (fun x : Course => map (cons x) (product os)) o)
      with (product (o :: os)).
    rewrite generation_loop_flat.
    change (outcome (for_each (emit max_results)
                       (enumeration by_name combos (o :: os))
                       {| valid_timetables := []; seen_slot_patterns := [] |})
            = firstn (effective_cap max_results)
                     (dedupe [] (enumeration by_name combos (o :: os)))).
    rewrite emit_loop_outcome; simpl; [|lia].
    unfold effective_cap. now rewrite Nat.sub_0_r.
Qed.


Lemma generated_In_order (max_results : Z) (res : list selection) (sel : selection) :
  snd (generate_timetables lower courses constraints max_results) = Returns res ->
  In sel res -> In sel (generation_order lower courses constraints).
Proof.
  intros H Hin. rewrite (generate_returns _ H) in Hin.
  apply firstn_In in Hin. eapply dedupe_incl; eassumption.
Qed.

Lemma generated_nodup (max_results : Z) (res : list selection) :
  snd (generate_timetables lower courses constraints max_results) = Returns res ->
  NoDup (map _get_slot_pattern res).
Proof.
  intros H. rewrite (generate_returns _ H).
  apply firstn_map_nodup, dedupe_nodup.
Qed.

(** The shape of every selection the generator meets. *)
Lemma generation_order_shape (sel : selection) :
  In sel (generation_order lower courses constraints) ->
  _has_conflicts sel = false
  /\ exists req wcs,
      sel = req ++ wcs
      /\ map short_title req = resolvable_required lower courses constraints
      /\ Forall (fun c => In c (filter_courses lower courses constraints)) req
      /\ Forall (wildcard_eligible constraints
                   (filter_courses lower courses constraints)) wcs
      /\ Z.of_nat (length wcs)
         = quota_total (wildcard_counts constraints)
                       (wildcard_names_available lower courses constraints).
Proof.
  unfold generation_order, resolvable_required, wildcard_names_available.
  set (filtered := filter_courses lower courses constraints).
  pose proof (resolve_required_options constraints (get_unique_courses filtered)) as Hro.
  pose proof (group_wildcards_inv constraints filtered) as Hgw.
  destruct (resolve_required constraints _) as [required_options log].
  destruct (group_wildcards _) as [by_cat by_name].
  simpl in Hro, Hgw. destruct Hgw as [Hres Hmem].
  destruct required_options as [|o os] eqn:Hopts; [contradiction|].
  rewrite <- Hopts in *. clear Hopts.
  destruct (_generate_wildcard_combos _ _) as [combos|] eqn:Hcombos; [|contradiction].
  intros H. apply enumeration_In in H.
  destruct H as [Hok [req [names [wcs [Hreq [Hnames [Hwcs ->]]]]]]].
  split; [assumption|]. exists req, wcs. split; [reflexivity|].
  apply product_In in Hreq. rewrite Hro in Hreq.
  apply required_options_titles in Hreq. destruct Hreq as [Ht Hf].
  split; [assumption|]. split; [assumption|].
  assert (Z.of_nat (length names)
          = (0 + quota_total (wildcard_counts constraints) by_cat)%Z
          /\ Forall (offered_name by_cat) names) as [Hlen Hoff].
  { apply wildcard_combos_loop_inv
      with (items := wildcard_counts constraints) (all := [[]]) (combos := combos);
      [| |exact Hcombos|exact Hnames].
    - intros cat count Hin. apply Hmem.
      change cat with (fst (cat, count)). now apply in_map.
    - intros c [<-|[]]. split; [reflexivity | constructor]. }
  destruct (@wildcard_section_options_resolved _ _ _ _ _ Hres Hoff Hwcs) as [Hl HP].
  split; [assumption|]. simpl. rewrite Hl. lia.
Qed.

End Generation.

(** ** The model on the specification's scenarios *)

Example lab_occupies_next_slot :
  get_time_slots ai_lab = [("Wed", "17:30", "TBD"); ("Wed", "19:00", "TBD")].
Proof. reflexivity. Qed.

Example scenario_a_one_selection :
  generate_timetables ascii_lower example_catalog scenario_a 10
  = ([], Returns [[web_b; applied_ml]]).
Proof. vm_compute. reflexivity. Qed.

Example scenario_b_nothing_resolved :
  generate_timetables ascii_lower example_catalog
    {| excluded_instructors := []; excluded_time_slots := [];
       required_courses := ["Robotics"]; wildcard_counts := [];
       section_preferences := []; batch := "BCS-2022" |} 10
  = ([CourseNotFound "Robotics"; NoRequiredCourses], Returns []).
Proof. vm_compute. reflexivity. Qed.

Example scenario_c_whole_pool :
  generate_timetables ascii_lower elective_catalog scenario_c 10
  = ([], Returns [[web_b; data_mining_a]; [web_b; data_mining_b]]).
Proof. vm_compute. reflexivity. Qed.

Example negative_quota_raises :
  snd (generate_timetables ascii_lower elective_catalog
         {| excluded_instructors := []; excluded_time_slots := [];
            required_courses := ["Web Pro"];
            wildcard_counts := [("CS Elective", (-1)%Z)];
            section_preferences := []; batch := "BCS-2022" |} 10)
  = RaisesValueError.
Proof. vm_compute. reflexivity. Qed.

(** * The specification's claims *)

(** ** Time grid and occupied slots *)

(** C7: [is_lab] holds exactly when the duration exceeds 100 minutes or the
    title contains the substring "Lab"; [get_time_slots] is what the first
    stored meeting emits followed by what the second emits, where a present
    (day, slot) pair emits its triple and, exactly when the offering is a lab
    and the slot has a following entry in the ordered slot list, the triple
    at that next slot with the same day and venue; the list has eight
    entries and its last entry has no following one. *)
Theorem occupied_slots_of_offering (c : Course) :
  (is_lab c = true
   <-> (duration_minutes c > 100)%Z
       \/ exists pre post, title c = (pre ++ "Lab" ++ post)%string)
  /\ (exists m1 m2,
         get_time_slots c = m1 ++ m2
         /\ meeting_emits (is_lab c) (day1 c) (slot1 c) (venue1 c) m1
         /\ meeting_emits (is_lab c) (day2 c) (slot2 c) (venue2 c) m2)
  /\ length TIME_SLOT_ORDER = 8%nat
  /\ (forall next, ~ next_in_grid (last TIME_SLOT_ORDER "") next).
Proof.
  split; [|split; [|split]].
  - unfold is_lab. rewrite orb_true_iff, str_contains_iff, Z.gtb_gt. tauto.
  - exists (meeting_block (is_lab c) (day1 c) (slot1 c) (venue1 c)),
           (meeting_block (is_lab c) (day2 c) (slot2 c) (venue2 c)).
    split; [reflexivity|]. split; apply meeting_block_emits.
  - reflexivity.
  - intros next H. apply get_next_slot_iff in H. discriminate H.
Qed.

(** C9: the next-slot lookup returns [None] for every slot string that is
    not a grid entry, so a stored meeting whose slot is off the grid emits
    only its base triple, lab or not; a lab with one such meeting has that
    single triple as its occupied slots. *)
Theorem next_slot_total_off_grid (slot : string) :
  ~ In slot TIME_SLOT_ORDER ->
  _get_next_slot slot = None
  /\ (forall lab day venue d,
         truthy day = Some d -> slot <> "" ->
         meeting_block lab day (Some slot) venue
         = [(d, slot, or_default venue "TBD")])
  /\ (forall c d,
         is_lab c = true ->
         truthy (day1 c) = Some d -> slot1 c = Some slot -> slot <> "" ->
         truthy (day2 c) = None ->
         get_time_slots c = [(d, slot, or_default (venue1 c) "TBD")]).
Proof.
  intros Hoff. pose proof (get_next_slot_off_grid Hoff) as Hnone.
  assert (forall lab day venue d,
             truthy day = Some d -> slot <> "" ->
             meeting_block lab day (Some slot) venue
             = [(d, slot, or_default venue "TBD")]) as Hblock.
  { intros lab day venue d Hd Hs. unfold meeting_block. rewrite Hd.
    destruct slot as [|a s]; [congruence|]. cbn [truthy].
    rewrite Hnone. now destruct lab. }
  split; [assumption|]. split; [assumption|].
  intros c d Hlab Hd Hs Hne Hd2. unfold get_time_slots.
  rewrite Hs, (Hblock _ _ _ _ Hd Hne).
  unfold meeting_block at 1. now rewrite Hd2.
Qed.

(** The statement on the example catalog. *)
Lemma next_slot_total_off_grid_witness :
  ~ In "09:15" TIME_SLOT_ORDER /\ _get_next_slot "09:15" = None.
Proof.
  assert (~ In "09:15" TIME_SLOT_ORDER) as H
    by (simpl; intuition discriminate).
  split; [exact H | exact (proj1 (@next_slot_total_off_grid "09:15" H))].
Defined.

(** ** The constraint filter *)

(** C5: for an offering whose short title is required, being kept by
    [filter_courses] does not depend on the batch's semester prefix: it is
    kept exactly when its section starts with "BCS-" and neither exclusion
    applies; an offering that is not required and whose section does not
    start with the resolved batch prefix is never kept. *)
Theorem required_exempt_from_batch_scoping (lower : string -> string)
  (courses : list Course) (constraints : TimetableConstraints) (c : Course) :
  In c courses ->
  (In (short_title c) (required_courses constraints) ->
   (In c (filter_courses lower courses constraints)
    <-> prefix "BCS-" (section c) = true
        /\ instructor_excluded lower constraints c = false
        /\ slot_excluded constraints c = false))
  /\ (~ In (short_title c) (required_courses constraints) ->
      prefix (get_semester_prefix constraints) (section c) = false ->
      ~ In c (filter_courses lower courses constraints)).
Proof.
  intros Hin. split.
  - intros Hreq. rewrite filter_courses_In, accepted_iff. tauto.
  - intros Hreq Hpre H. apply filter_courses_In in H. destruct H as [_ H].
    apply accepted_iff in H. destruct H as [_ [[H|H] _]]; [auto | congruence].
Qed.

(** The statement on the example catalog. *)
Lemma required_exempt_from_batch_scoping_witness :
  In ai_lab example_catalog
  /\ In ai_lab (filter_courses ascii_lower example_catalog scenario_repeat).
Proof.
  assert (In ai_lab example_catalog) as H by (simpl; tauto).
  split; [exact H|].
  apply (proj1 (@required_exempt_from_batch_scoping ascii_lower example_catalog
                  scenario_repeat ai_lab H)).
  - simpl. tauto.
  - vm_compute. auto.
Defined.

(** C6, as amended: [filter_courses] is monotonic in the exclusion lists:
    every offering kept under exclusion lists is also kept under any
    sub-lists of them, in particular with one entry removed, the required
    courses and the batch being the same. *)
Theorem filter_monotone_in_exclusions (lower : string -> string)
  (courses : list Course) (strict relaxed : TimetableConstraints) :
  incl (excluded_instructors relaxed) (excluded_instructors strict) ->
  incl (excluded_time_slots relaxed) (excluded_time_slots strict) ->
  required_courses relaxed = required_courses strict ->
  batch relaxed = batch strict ->
  forall c, In c (filter_courses lower courses strict) ->
            In c (filter_courses lower courses relaxed).
Proof.
  intros Hi Ht Hr Hb c. rewrite !filter_courses_In, !accepted_iff.
  unfold get_semester_prefix. rewrite Hr, Hb.
  intros [Hin [Hp [Hq [He Hs]]]].
  split; [assumption|]. split; [assumption|]. split; [assumption|]. split.
  - eapply instructor_excluded_mono; eassumption.
  - eapply slot_excluded_mono; eassumption.
Qed.

(** The statement on the example catalog. *)
Lemma filter_monotone_in_exclusions_witness :
  In web_b (filter_courses ascii_lower example_catalog (scenario_preference [])).
Proof.
  apply (@filter_monotone_in_exclusions ascii_lower example_catalog
           (scenario_preference ["smith"]) (scenario_preference [])).
  - simpl. intros x [].
  - simpl. intros x [].
  - reflexivity.
  - reflexivity.
  - vm_compute. tauto.
Defined.

(** C6, counterexample: with "Web Pro" required and section "BCS-8A"
    preferred, excluding the instructor of BCS-8A makes the generator fall
    back to all sections and emit the BCS-8B selection; removing the
    exclusion makes it emit the BCS-8A selection only, so the selection
    produced before is no longer produced. *)
Lemma relaxation_can_drop_a_selection :
  snd (generate_timetables ascii_lower example_catalog
         (scenario_preference ["smith"]) 1000) = Returns [[web_b]]
  /\ snd (generate_timetables ascii_lower example_catalog
            (scenario_preference []) 1000) = Returns [[web_a]]
  /\ ~ In [web_b] [[web_a]].
Proof.
  split; [vm_compute; reflexivity|]. split; [vm_compute; reflexivity|].
  intros [H|[]]. discriminate H.
Qed.

(** ** Required options *)


(** ** The generator *)

(** C1: every selection in the list [generate_timetables] returns is free
    of conflicts: [_has_conflicts] is false on it, which is to say that no
    two of its offerings share a (day, slotStart) pair among the slots
    [get_time_slots] derives, lab extensions included. *)
Theorem generated_selections_conflict_free (lower : string -> string)
  (courses : list Course) (constraints : TimetableConstraints)
  (max_results : Z) (res : list selection) :
  snd (generate_timetables lower courses constraints max_results) = Returns res ->
  Forall (fun sel => _has_conflicts sel = false /\ conflict_free sel) res.
Proof.
  intros H. apply Forall_forall. intros sel Hin.
  apply (@generated_In_order lower courses constraints max_results res sel H) in Hin.
  apply generation_order_shape in Hin. destruct Hin as [Hok _].
  split; [assumption | now apply has_conflicts_false_iff].
Qed.

(** The statement on the example catalog. *)
Lemma generated_selections_conflict_free_witness :
  Forall (fun sel => _has_conflicts sel = false /\ conflict_free sel)
         [[web_b; applied_ml]].
Proof.
  apply (@generated_selections_conflict_free ascii_lower example_catalog
           scenario_a 10).
  vm_compute. reflexivity.
Defined.

(** C2, counterexample: with [max_results = 0] the call on the example
    catalog returns one selection, not the empty list. *)
Lemma cap_zero_returns_a_selection :
  snd (generate_timetables ascii_lower example_catalog scenario_a 0)
  = Returns [[web_b; applied_ml]]
  /\ ~ (Z.of_nat (length [[web_b; applied_ml]]) <= 0)%Z.
Proof.
  split; [vm_compute; reflexivity | simpl; lia].
Qed.

(** C2, as amended: the returned list has at most [max(1, max_results)]
    selections: at most [max_results] for every cap of at least 1, and at
    most one selection for a cap of 0 or less, the cap being tested after
    each append. *)
Theorem generated_length_capped (lower : string -> string)
  (courses : list Course) (constraints : TimetableConstraints)
  (max_results : Z) (res : list selection) :
  snd (generate_timetables lower courses constraints max_results) = Returns res ->
  (Z.of_nat (length res) <= Z.max 1 max_results)%Z
  /\ ((1 <= max_results)%Z -> (Z.of_nat (length res) <= max_results)%Z)
  /\ ((max_results <= 0)%Z -> (length res <= 1)%nat).
Proof.
  intros H. apply generate_returns in H.
  assert (length res <= effective_cap max_results)%nat as Hlen
    by (rewrite H; apply firstn_le_length).
  unfold effective_cap in Hlen. lia.
Qed.

(** The statement on the example catalog. *)
Lemma generated_length_capped_witness :
  (Z.of_nat (length [[web_b; applied_ml]]) <= Z.max 1 1)%Z.
Proof.
  assert (snd (generate_timetables ascii_lower example_catalog scenario_a 1)
          = Returns [[web_b; applied_ml]]) as H by (vm_compute; reflexivity).
  exact (proj1 (@generated_length_capped ascii_lower example_catalog scenario_a 1
                  [[web_b; applied_ml]] H)).
Defined.

(** C3, counterexample: with the required names "Robotics" (no offering)
    and "Applied ML", the returned selection holds one offering, not one
    per required name. *)
Lemma missing_required_course_is_skipped :
  snd (generate_timetables ascii_lower example_catalog scenario_missing 10)
  = Returns [[applied_ml]]
  /\ length [applied_ml] <> length (required_courses scenario_missing).
Proof.
  split; [vm_compute; reflexivity | discriminate].
Qed.

(** C3, as amended: every returned selection is the required picks
    followed by the wildcard picks. The required picks are one offering per
    required name that has offerings in the filtered catalog, in the order
    of the names (a name without offerings is skipped); the wildcard picks
    are offerings of the filtered catalog whose short title is not
    required, and their number is the sum over the wildcard categories of
    the quota capped by the number of course names available in the
    category. *)
Theorem generated_selection_cardinality (lower : string -> string)
  (courses : list Course) (constraints : TimetableConstraints)
  (max_results : Z) (res : list selection) (sel : selection) :
  snd (generate_timetables lower courses constraints max_results) = Returns res ->
  In sel res ->
  exists req wcs,
    sel = req ++ wcs
    /\ map short_title req = resolvable_required lower courses constraints
    /\ length req = length (resolvable_required lower courses constraints)
    /\ Forall (fun c => ~ In (short_title c) (required_courses constraints)) wcs
    /\ Z.of_nat (length wcs)
       = quota_total (wildcard_counts constraints)
                     (wildcard_names_available lower courses constraints)
    /\ ((forall name, In name (required_courses constraints) ->
                      In name (resolvable_required lower courses constraints)) ->
        length req = length (required_courses constraints)).
Proof.
  intros H Hin.
  apply (@generated_In_order lower courses constraints max_results res sel H) in Hin.
  apply generation_order_shape in Hin.
  destruct Hin as [_ [req [wcs [-> [Ht [_ [Hw Hq]]]]]]].
  assert (length req = length (resolvable_required lower courses constraints)) as Hl
    by (rewrite <- Ht; now rewrite length_map).
  exists req, wcs. split; [reflexivity|]. split; [assumption|].
  split; [assumption|]. split; [|split; [assumption|]].
  - eapply Forall_impl; [|exact Hw].
    intros c [_ Hc] Habs. apply str_in_iff in Habs. congruence.
  - intros Hall. rewrite Hl. unfold resolvable_required in *.
    f_equal. apply filter_all_true. intros name Hname.
    apply Hall in Hname. now apply filter_In in Hname.
Qed.

(** The statement on the example catalog. *)
Lemma generated_selection_cardinality_witness :
  exists req wcs,
    [web_b; data_mining_a] = req ++ wcs
    /\ map short_title req = ["Web Pro"]
    /\ Z.of_nat (length wcs) = 1%Z.
Proof.
  destruct (@generated_selection_cardinality ascii_lower elective_catalog
              scenario_c 10
              [[web_b; data_mining_a]; [web_b; data_mining_b]]
              [web_b; data_mining_a])
    as [req [wcs [H1 [H2 [_ [_ [H3 _]]]]]]].
  - vm_compute. reflexivity.
  - now left.
  - exists req, wcs. split; [exact H1|]. split; [exact H2 | exact H3].
Defined.

(** C4: within one call, the slot signatures of the returned selections
    are pairwise distinct, and every returned selection is the first one
    with its signature in the order in which the generator meets the
    selections. *)
Theorem generated_signatures_distinct (lower : string -> string)
  (courses : list Course) (constraints : TimetableConstraints)
  (max_results : Z) (res : list selection) :
  snd (generate_timetables lower courses constraints max_results) = Returns res ->
  NoDup (map _get_slot_pattern res)
  /\ forall sel,
      In sel res ->
      first_with_signature (generation_order lower courses constraints) sel.
Proof.
  intros H. split; [eapply generated_nodup; eassumption|].
  intros sel Hin. rewrite (@generate_returns lower courses constraints max_results res H) in Hin.
  apply firstn_In in Hin. eapply dedupe_first; eassumption.
Qed.

(** The statement on the example catalog. *)
Lemma generated_signatures_distinct_witness :
  NoDup (map _get_slot_pattern [[web_a; seminar]; [web_b; seminar]]).
Proof.
  assert (snd (generate_timetables ascii_lower example_catalog scenario_seminar 1000)
          = Returns [[web_a; seminar]; [web_b; seminar]]) as H
    by (vm_compute; reflexivity).
  exact (proj1 (@generated_signatures_distinct ascii_lower example_catalog
                  scenario_seminar 1000 [[web_a; seminar]; [web_b; seminar]] H)).
Defined.

(** C10: an offering without meeting data occupies no slot; it conflicts
    with no offering, in either argument order; it adds nothing to the slot
    signature of a selection; two selections that differ only in offerings
    occupying no slot have the same signature, so one call never returns
    both. *)
Theorem offering_without_meetings (c : Course) :
  no_meeting_data c ->
  get_time_slots c = []
  /\ (forall other,
         conflicts_with c other = false /\ conflicts_with other c = false)
  /\ (forall before after,
         _get_slot_pattern (before ++ c :: after)
         = _get_slot_pattern (before ++ after))
  /\ (forall sel1 sel2,
         scheduled_part sel1 = scheduled_part sel2 ->
         _get_slot_pattern sel1 = _get_slot_pattern sel2)
  /\ (forall lower courses constraints max_results res sel1 sel2,
         snd (generate_timetables lower courses constraints max_results)
         = Returns res ->
         In sel1 res -> In sel2 res ->
         scheduled_part sel1 = scheduled_part sel2 ->
         sel1 = sel2).
Proof.
  intros Hc. apply no_meeting_data_slots in Hc.
  assert (forall sel1 sel2,
             scheduled_part sel1 = scheduled_part sel2 ->
             _get_slot_pattern sel1 = _get_slot_pattern sel2) as Hsame.
  { intros sel1 sel2 He. rewrite !get_slot_pattern_keys.
    rewrite <- (slot_keys_drop sel1), <- (slot_keys_drop sel2).
    unfold scheduled_part in He. now rewrite He. }
  split; [assumption|]. split; [|split; [|split]].
  - intros other. now apply conflicts_with_no_slots.
  - intros before after. apply Hsame. unfold scheduled_part.
    rewrite !filter_app. simpl. now rewrite Hc.
  - assumption.
  - intros lower courses constraints max_results res sel1 sel2 H H1 H2 He.
    apply (nodup_map_inj _get_slot_pattern res); auto.
    eapply generated_nodup; eassumption.
Qed.

(** The statement on the example catalog. *)
Lemma offering_without_meetings_witness :
  no_meeting_data seminar /\ get_time_slots seminar = [].
Proof.
  assert (no_meeting_data seminar) as H by (split; left; reflexivity).
  split; [exact H | exact (proj1 (@offering_without_meetings seminar H))].
Defined.

(** * Further properties of the code *)

(** ** Sorting strings *)

Lemma ascii_compare_lt_trans (a b c : ascii) :
  Ascii.compare a b = Lt -> Ascii.compare b c = Lt -> Ascii.compare a c = Lt.
Proof.
  unfold Ascii.compare. rewrite !N.compare_lt_iff. apply N.lt_trans.
Qed.

Lemma string_compare_refl (s : string) : String.compare s s = Eq.
Proof.
  induction s as [|a s IH]; simpl; [reflexivity|].
  unfold Ascii.compare. now rewrite N.compare_refl.
Qed.

Lemma string_compare_lt_trans (s1 s2 s3 : string) :
  String.compare s1 s2 = Lt -> String.compare s2 s3 = Lt ->
  String.compare s1 s3 = Lt.
Proof.
  revert s2 s3; induction s1 as [|a s1 IH]; intros [|b s2] [|c s3]; simpl;
    try discriminate; try reflexivity.
  destruct (Ascii.compare a b) eqn:Hab; try discriminate;
    destruct (Ascii.compare b c) eqn:Hbc; try discriminate; intros H1 H2.
  - apply Ascii.compare_eq_iff in Hab, Hbc. subst.
    unfold Ascii.compare. rewrite N.compare_refl. eapply IH; eassumption.
  - apply Ascii.compare_eq_iff in Hab. subst. now rewrite Hbc.
  - apply Ascii.compare_eq_iff in Hbc. subst. now rewrite Hab.
  - now rewrite (ascii_compare_lt_trans _ _ _ Hab Hbc).
Qed.

Lemma string_leb_iff (s1 s2 : string) :
  String.leb s1 s2 = true <-> s1 = s2 \/ String.compare s1 s2 = Lt.
Proof.
  unfold String.leb. destruct (String.compare s1 s2) eqn:Hc.
  - apply String.compare_eq_iff in Hc. tauto.
  - tauto.
  - split; [discriminate|]. intros [->|H]; [|discriminate].
    now rewrite string_compare_refl in Hc.
Qed.

Lemma string_leb_trans (s1 s2 s3 : string) :
  String.leb s1 s2 = true -> String.leb s2 s3 = true -> String.leb s1 s3 = true.
Proof.
  rewrite !string_leb_iff. intros [->|H1] [->|H2]; auto.
  right. eapply string_compare_lt_trans; eassumption.
Qed.

Lemma insert_sorted_perm (x : string) (l : list string) :
  Permutation (insert_sorted x l) (x :: l).
Proof.
  induction l as [|y l IH]; simpl; [reflexivity|].
  destruct (String.leb x y); [reflexivity|].
  rewrite IH. apply perm_swap.
Qed.

Lemma sorted_perm (l : list string) : Permutation (sorted l) l.
Proof.
  induction l as [|x l IH]; simpl; [reflexivity|].
  rewrite insert_sorted_perm. now constructor.
Qed.

Lemma sorted_In (l : list string) (x : string) : In x (sorted l) <-> In x l.
Proof.
  split; apply Permutation_in; [|symmetry]; apply sorted_perm.
Qed.

Lemma insert_sorted_sorted (x : string) (l : list string) :
  StronglySorted str_le l -> StronglySorted str_le (insert_sorted x l).
Proof.
  induction l as [|y l IH]; simpl; intros Hs.
  - repeat constructor.
  - destruct (String.leb x y) eqn:Hxy.
    + constructor; [assumption|]. constructor; [exact Hxy|].
      inversion Hs as [|? ? _ Hall]; subst.
      eapply Forall_impl; [|exact Hall].
      intros z Hz. eapply string_leb_trans; eassumption.
    + inversion Hs as [|? ? Hs' Hall]; subst.
      constructor; [now apply IH|].
      assert (str_le y x) as Hyx
        by (destruct (String.leb_total x y) as [H|H]; [congruence | exact H]).
      apply Forall_forall. intros z Hz.
      apply (Permutation_in _ (insert_sorted_perm x l)) in Hz.
      destruct Hz as [<-|Hz]; [assumption|].
      revert z Hz. now apply Forall_forall.
Qed.

Lemma sorted_sorted (l : list string) : StronglySorted str_le (sorted l).
Proof.
  induction l as [|x l IH]; simpl; [constructor | now apply insert_sorted_sorted].
Qed.

(** A sorted list is determined by its elements with their multiplicities. *)
Lemma strongly_sorted_unique (l1 l2 : list string) :
  StronglySorted str_le l1 -> StronglySorted str_le l2 ->
  Permutation l1 l2 -> l1 = l2.
Proof.
  intros H1; revert l2; induction H1 as [|x l1 Hs1 IH Hall1]; intros l2 H2 Hp.
  - apply Permutation_nil in Hp. now subst.
  - destruct H2 as [|y l2 Hs2 Hall2].
    + symmetry in Hp. apply Permutation_nil in Hp. discriminate.
    + assert (x = y) as ->.
      { assert (In x (y :: l2)) as Hx
          by (apply (Permutation_in _ Hp); now left).
        assert (In y (x :: l1)) as Hy
          by (apply (Permutation_in _ (Permutation_sym Hp)); now left).
        destruct Hx as [Hx|Hx]; [now symmetry|].
        destruct Hy as [Hy|Hy]; [assumption|].
        apply String.leb_antisym.
        - exact (proj1 (Forall_forall _ _) Hall1 y Hy).
        - exact (proj1 (Forall_forall _ _) Hall2 x Hx). }
      f_equal. apply IH; [assumption|]. eapply Permutation_cons_inv; eassumption.
Qed.

Lemma sorted_permutation_eq (l1 l2 : list string) :
  Permutation l1 l2 -> sorted l1 = sorted l2.
Proof.
  intros Hp. apply strongly_sorted_unique; try apply sorted_sorted.
  rewrite !sorted_perm. exact Hp.
Qed.

(** ** Sets of strings *)

Lemma set_add_In (x y : string) (s : list string) :
  In y (set_add x s) <-> y = x \/ In y s.
Proof.
  unfold set_add. destruct (str_in x s) eqn:Hx.
  - apply str_in_iff in Hx. split; [auto | intros [->|H]; assumption].
  - rewrite in_app_iff. simpl. intuition auto.
Qed.

Lemma set_add_nodup (x : string) (s : list string) :
  NoDup s -> NoDup (set_add x s).
Proof.
  intros Hs. unfold set_add. destruct (str_in x s) eqn:Hx; [assumption|].
  apply NoDup_app; [assumption | repeat constructor; simpl; tauto |].
  intros y Hy [<-|[]]. apply str_in_iff in Hy. congruence.
Qed.

(** ** Batches and catalog queries *)

Lemma prefix_trans (a b c : string) :
  prefix a b = true -> prefix b c = true -> prefix a c = true.
Proof.
  rewrite !prefix_iff. intros [r1 ->] [r2 ->]. exists (r1 ++ r2)%string.
  induction a as [|x a IH]; simpl; [reflexivity | now rewrite IH].
Qed.

Lemma semester_prefix_cases (constraints : TimetableConstraints) :
  In (get_semester_prefix constraints)
     ["BCS-2"; "BCS-4"; "BCS-6"; "BCS-8"; "BCS-10"].
Proof.
  unfold get_semester_prefix, od_get_default, batch_to_semester.
  cbn [od_get In].
  repeat (destruct (String.eqb _ (batch constraints)); [auto 10|]).
  auto 10.
Qed.

Lemma semester_prefix_program (constraints : TimetableConstraints) :
  prefix "BCS-" (get_semester_prefix constraints) = true.
Proof.
  pose proof (semester_prefix_cases constraints) as H. simpl in H.
  repeat (destruct H as [<-|H]; [reflexivity|]). contradiction.
Qed.

Lemma get_courses_for_batch_In (courses : list Course) (batch : string) (c : Course) :
  In c (get_courses_for_batch courses batch)
  <-> In c courses
      /\ prefix (get_semester_prefix (default_constraints batch)) (section c) = true.
Proof. unfold get_courses_for_batch. apply filter_In. Qed.

Lemma add_instructor_fold (l : list Course) (acc : list string) (x : string) :
  In x (fold_left add_instructor l acc)
  <-> In x acc
      \/ exists c, In c l /\ instructor c = x /\ x <> "" /\ x <> "TBD".
Proof.
  revert acc; induction l as [|c l IH]; intros acc; simpl.
  - split; [auto | intros [H|[c [[] _]]]; assumption].
  - rewrite IH. unfold add_instructor.
    destruct (String.eqb_spec (instructor c) "") as [He|He];
      destruct (String.eqb_spec (instructor c) "TBD") as [Ht|Ht]; simpl;
      rewrite ?set_add_In; split.
    all: try (intros [H|[d [Hd H]]]; [now left | right; exists d; tauto]).
    all: try (intros [H|[d [[<-|Hd] [H1 [H2 H3]]]]];
              [now left | congruence | right; exists d; tauto]).
    + intros [[->|H]|[d [Hd H]]]; [right; exists c; tauto | now left
                                  | right; exists d; tauto].
    + intros [H|[d [[<-|Hd] [H1 [H2 H3]]]]];
        [left; now right | left; left; now symmetry | right; exists d; tauto].
Qed.

Lemma add_instructor_nodup (l : list Course) (acc : list string) :
  NoDup acc -> NoDup (fold_left add_instructor l acc).
Proof.
  revert acc; induction l as [|c l IH]; intros acc Hacc; simpl; [assumption|].
  apply IH. unfold add_instructor.
  destruct (_ && _); [now apply set_add_nodup | assumption].
Qed.

Lemma add_cs_instructor_fold (l : list Course) (acc : list string) :
  fold_left add_cs_instructor l acc
  = fold_left add_instructor (filter (fun c => prefix "BCS-" (section c)) l) acc.
Proof.
  revert acc; induction l as [|c l IH]; intros acc; simpl; [reflexivity|].
  unfold add_cs_instructor at 2.
  destruct (prefix "BCS-" (section c)); simpl; rewrite IH; reflexivity.
Qed.

(** ** Courses by category *)

Lemma add_to_category_get (d : odict (list string)) (c : Course) (k : string) :
  od_get k (add_to_category d c) =
  if String.eqb (category_or_default c) k
  then Some (set_add (short_title c) (od_get_default k d []))
  else od_get k d.
Proof.
  unfold add_to_category, od_get_default, od_mem.
  destruct (od_get (category_or_default c) d) as [old|] eqn:Hold.
  - rewrite od_get_set.
    destruct (String.eqb_spec (category_or_default c) k) as [<-|Hne];
      [now rewrite Hold | reflexivity].
  - rewrite od_get_set_same, !od_get_set.
    destruct (String.eqb_spec (category_or_default c) k) as [<-|Hne];
      [now rewrite Hold | reflexivity].
Qed.

Lemma add_to_category_fold (l : list Course) (d : odict (list string)) (k : string) :
  (forall t, In t (od_get_default k (fold_left add_to_category l d) [])
             <-> In t (od_get_default k d [])
                 \/ exists c, In c l /\ category_or_default c = k
                              /\ short_title c = t)
  /\ (od_mem k (fold_left add_to_category l d) = true
      <-> od_mem k d = true \/ exists c, In c l /\ category_or_default c = k).
Proof.
  revert d; induction l as [|c l IH]; intros d; simpl.
  - split; [intros t|]; (split; [auto | intros [H|[c [[] _]]]; assumption]).
  - destruct (IH (add_to_category d c)) as [IH1 IH2]. split.
    + intros t. rewrite IH1. unfold od_get_default at 1.
      rewrite add_to_category_get.
      destruct (String.eqb_spec (category_or_default c) k) as [Hk|Hk].
      * rewrite set_add_In. split.
        -- intros [[->|H]|[e [He H]]];
             [right; exists c; auto | now left | right; exists e; tauto].
        -- intros [H|[e [[<-|He] [H1 H2]]]];
             [left; now right | left; left; now symmetry | right; exists e; auto].
      * fold (od_get_default k d []). split.
        -- intros [H|[e [He H]]]; [now left | right; exists e; tauto].
        -- intros [H|[e [[<-|He] [H1 H2]]]];
             [now left | congruence | right; exists e; auto].
    + rewrite IH2. unfold od_mem at 1. rewrite add_to_category_get.
      destruct (String.eqb_spec (category_or_default c) k) as [Hk|Hk].
      * split; [intros _; right; exists c; auto | auto].
      * fold (od_mem k d). split.
        -- intros [H|[e [He H]]]; [now left | right; exists e; tauto].
        -- intros [H|[e [[<-|He] H1]]];
             [now left | congruence | right; exists e; auto].
Qed.

Lemma add_to_category_nodup (l : list Course) (d : odict (list string)) (k : string) :
  NoDup (od_get_default k d []) ->
  NoDup (od_get_default k (fold_left add_to_category l d) []).
Proof.
  revert d; induction l as [|c l IH]; intros d Hd; simpl; [assumption|].
  apply IH. unfold od_get_default at 1. rewrite add_to_category_get.
  destruct (String.eqb (category_or_default c) k);
    [now apply set_add_nodup | exact Hd].
Qed.

Lemma add_cs_to_category_fold (l : list Course) (d : odict (list string)) :
  fold_left add_cs_to_category l d
  = fold_left add_to_category (filter (fun c => prefix "BCS-" (section c)) l) d.
Proof.
  revert d; induction l as [|c l IH]; intros d; simpl; [reflexivity|].
  unfold add_cs_to_category at 2.
  destruct (prefix "BCS-" (section c)); simpl; rewrite IH; reflexivity.
Qed.

Lemma sorted_values_get (d : odict (list string)) (k : string) :
  od_get k (sorted_values d) = option_map sorted (od_get k d).
Proof.
  unfold sorted_values. induction d as [|[k' v] d IH]; simpl; [reflexivity|].
  destruct (String.eqb k' k); [reflexivity | exact IH].
Qed.

Lemma accepted_prefix_only (lower : string -> string)
  (constraints : TimetableConstraints) (c : Course) :
  accepted lower constraints c = true ->
  ~ In (short_title c) (required_courses constraints) ->
  prefix (get_semester_prefix constraints) (section c) = true.
Proof.
  intros H Hreq. apply accepted_iff in H. destruct H as [_ [[H|H] _]]; tauto.
Qed.

Lemma existsb_never (A : Type) (l : list A) :
  existsb (fun _ => false) l = false.
Proof. induction l as [|a l IH]; simpl; [reflexivity | exact IH]. Qed.

Lemma accepted_default (lower : string -> string) (batch : string) (c : Course) :
  accepted lower (default_constraints batch) c
  = prefix (get_semester_prefix (default_constraints batch)) (section c).
Proof.
  unfold accepted, instructor_excluded, slot_excluded.
  cbn [required_courses excluded_instructors excluded_time_slots
       default_constraints str_in existsb].
  rewrite existsb_never.
  destruct (prefix (get_semester_prefix _) (section c)) eqn:Hp.
  - rewrite (prefix_trans _ _ _ (semester_prefix_program _) Hp). reflexivity.
  - destruct (prefix "BCS-" (section c)); reflexivity.
Qed.

(** X1: with no required course and no exclusion, [filter_courses] is
    [get_courses_for_batch]; and under any constraints, every offering the
    filter keeps whose short title is not required is one of the batch's
    courses, all of which belong to the program ("BCS-" sections). *)
Theorem batch_courses_bound_the_filter (lower : string -> string)
  (courses : list Course) :
  (forall batch,
      filter_courses lower courses (default_constraints batch)
      = get_courses_for_batch courses batch)
  /\ (forall constraints c,
         In c (filter_courses lower courses constraints) ->
         ~ In (short_title c) (required_courses constraints) ->
         In c (get_courses_for_batch courses (batch constraints)))
  /\ (forall batch c,
         In c (get_courses_for_batch courses batch) ->
         prefix "BCS-" (section c) = true).
Proof.
  split; [|split].
  - intros batch. unfold filter_courses, get_courses_for_batch.
    apply filter_ext. intros c. apply accepted_default.
  - intros constraints c Hin Hreq. apply filter_courses_In in Hin.
    destruct Hin as [Hin Hacc]. apply get_courses_for_batch_In.
    split; [assumption|]. exact (accepted_prefix_only _ _ _ Hacc Hreq).
  - intros batch c Hin. apply get_courses_for_batch_In in Hin.
    destruct Hin as [_ Hp].
    exact (prefix_trans _ _ _ (semester_prefix_program _) Hp).
Qed.

Lemma available_instructors_In (courses : list Course) (batch name : string) :
  In name (get_available_instructors courses batch)
  <-> exists c, In c (get_courses_for_batch courses batch)
                /\ instructor c = name /\ name <> "" /\ name <> "TBD".
Proof.
  unfold get_available_instructors.
  rewrite sorted_In, add_instructor_fold. simpl. tauto.
Qed.

(** X2: [get_available_instructors] returns, in ascending order and
    without repetition, exactly the instructor names of the batch's courses
    that are neither empty nor "TBD". *)
Theorem available_instructors_sorted_exact (courses : list Course)
  (batch : string) :
  StronglySorted str_le (get_available_instructors courses batch)
  /\ NoDup (get_available_instructors courses batch)
  /\ forall name,
      In name (get_available_instructors courses batch)
      <-> exists c, In c (get_courses_for_batch courses batch)
                    /\ instructor c = name /\ name <> "" /\ name <> "TBD".
Proof.
  split; [apply sorted_sorted|]. split.
  - apply (Permutation_NoDup (Permutation_sym (sorted_perm _))).
    apply add_instructor_nodup. constructor.
  - intros name. apply available_instructors_In.
Qed.

(** X3: whatever the batch, its instructors are among the instructors of
    [get_all_cs_instructors], which are exactly the non-empty, non-"TBD"
    instructor names of the "BCS-" sections. *)
Theorem batch_instructors_among_all_cs (courses : list Course) :
  (forall name,
      In name (get_all_cs_instructors courses)
      <-> exists c, In c courses /\ prefix "BCS-" (section c) = true
                    /\ instructor c = name /\ name <> "" /\ name <> "TBD")
  /\ forall batch,
      incl (get_available_instructors courses batch)
           (get_all_cs_instructors courses).
Proof.
  assert (forall name,
             In name (get_all_cs_instructors courses)
             <-> exists c, In c courses /\ prefix "BCS-" (section c) = true
                           /\ instructor c = name /\ name <> "" /\ name <> "TBD")
    as Hall.
  { intros name. unfold get_all_cs_instructors.
    rewrite sorted_In, add_cs_instructor_fold, add_instructor_fold. simpl.
    split.
    - intros [[]|[c [Hc H]]]. apply filter_In in Hc. exists c. tauto.
    - intros [c [Hc [Hp H]]]. right. exists c. rewrite filter_In. tauto. }
  split; [exact Hall|].
  intros batch name Hin.
  apply available_instructors_In in Hin.
  destruct Hin as [c [Hc H]]. apply get_courses_for_batch_In in Hc.
  destruct Hc as [Hc Hp]. apply Hall. exists c. split; [assumption|].
  split; [|assumption].
  exact (prefix_trans _ _ _ (semester_prefix_program _) Hp).
Qed.

(** What a lookup in the sorted category dictionary built from [l] gives. *)
Lemma categories_lookup (l : list Course) (cat : string) :
  match od_get cat (sorted_values (fold_left add_to_category l [])) with
  | Some titles =>
      titles <> [] /\ StronglySorted str_le titles /\ NoDup titles
      /\ forall t, In t titles
                   <-> exists c, In c l /\ category_or_default c = cat
                                 /\ short_title c = t
  | None => forall c, In c l -> category_or_default c <> cat
  end.
Proof.
  rewrite sorted_values_get.
  destruct (add_to_category_fold l [] cat) as [H1 H2].
  pose proof (add_to_category_nodup l [] cat) as Hnd.
  unfold od_get_default, od_mem in H1, H2, Hnd.
  destruct (od_get cat (fold_left add_to_category l [])) as [v|]; simpl in *.
  - assert (forall t, In t (sorted v)
                      <-> exists c, In c l /\ category_or_default c = cat
                                    /\ short_title c = t) as Hin.
    { intros t. rewrite sorted_In, H1. split; [intros [[]|H]; exact H | auto]. }
    split; [|split; [apply sorted_sorted|split; [|exact Hin]]].
    + destruct (proj1 H2 eq_refl) as [H|[c [Hc Hk]]]; [discriminate|].
      intros Hnil.
      assert (In (short_title c) (sorted v)) as Habs
        by (apply Hin; exists c; auto).
      rewrite Hnil in Habs. contradiction.
    + apply (Permutation_NoDup (Permutation_sym (sorted_perm _))).
      apply Hnd. constructor.
  - intros c Hc Hk.
    assert (false = true) as Habs by (apply H2; right; exists c; auto).
    discriminate.
Qed.

Lemma category_or_default_iff (c : Course) (cat : string) :
  category_or_default c = cat
  <-> (category c = cat /\ cat <> "")
      \/ (category c = "" /\ cat = "Uncategorized").
Proof.
  unfold category_or_default.
  destruct (String.eqb_spec (category c) "") as [He|He].
  - rewrite He. split.
    + intros <-. now right.
    + intros [[H1 H2]|[_ H]]; congruence.
  - split.
    + intros <-. now left.
    + intros [[H1 H2]|[H _]]; congruence.
Qed.

(** X4: in [get_available_courses], the list under a category holds, in
    ascending order and without repetition, exactly the short titles of
    the batch's courses of that category, a course with an empty category
    counting as "Uncategorized"; a category of no course of the batch is
    not a key (the empty string never is), and no list is empty. *)
Theorem available_courses_by_category (courses : list Course)
  (batch cat : string) :
  match od_get cat (get_available_courses courses batch) with
  | Some titles =>
      titles <> [] /\ StronglySorted str_le titles /\ NoDup titles
      /\ forall t,
          In t titles
          <-> exists c, In c (get_courses_for_batch courses batch)
                        /\ ((category c = cat /\ cat <> "")
                            \/ (category c = "" /\ cat = "Uncategorized"))
                        /\ short_title c = t
  | None =>
      forall c, In c (get_courses_for_batch courses batch) ->
                ~ ((category c = cat /\ cat <> "")
                   \/ (category c = "" /\ cat = "Uncategorized"))
  end.
Proof.
  unfold get_available_courses.
  pose proof (categories_lookup (get_courses_for_batch courses batch) cat) as H.
  destruct (od_get cat _) as [titles|].
  - destruct H as [Hne [Hs [Hnd Hin]]].
    split; [assumption|]. split; [assumption|]. split; [assumption|].
    intros t. rewrite Hin. split; intros [c [Hc [Hk Ht]]]; exists c;
      (split; [assumption|]; split; [|assumption]);
      now apply category_or_default_iff.
  - intros c Hc Hk. apply (H c Hc). now apply category_or_default_iff.
Qed.

(** X5: every category that [get_available_courses] lists for a batch is
    a category of [get_all_cs_courses], and the batch's titles under it are
    among the titles listed there. *)
Theorem batch_courses_among_all_cs (courses : list Course)
  (batch cat : string) (titles : list string) :
  od_get cat (get_available_courses courses batch) = Some titles ->
  exists all_titles,
    od_get cat (get_all_cs_courses courses) = Some all_titles
    /\ incl titles all_titles.
Proof.
  unfold get_available_courses, get_all_cs_courses.
  rewrite add_cs_to_category_fold.
  pose proof (categories_lookup (get_courses_for_batch courses batch) cat) as H1.
  pose proof (categories_lookup
                (filter (fun c => prefix "BCS-" (section c)) courses) cat) as H2.
  intros Hget. rewrite Hget in H1. destruct H1 as [Hne [_ [_ Hin1]]].
  assert (forall c, In c (get_courses_for_batch courses batch) ->
                    In c (filter (fun c => prefix "BCS-" (section c)) courses))
    as Hsub.
  { intros c Hc. apply get_courses_for_batch_In in Hc. destruct Hc as [Hc Hp].
    apply filter_In. split; [assumption|].
    exact (prefix_trans _ _ _ (semester_prefix_program _) Hp). }
  destruct (od_get cat (sorted_values _)) as [all_titles|].
  - exists all_titles. split; [reflexivity|]. destruct H2 as [_ [_ [_ Hin2]]].
    intros t Ht. apply Hin2. apply Hin1 in Ht. destruct Ht as [c [Hc H]].
    exists c. split; [now apply Hsub | assumption].
  - exfalso. destruct titles as [|t titles]; [congruence|].
    destruct (proj1 (Hin1 t) (or_introl eq_refl)) as [c [Hc [Hk _]]].
    exact (H2 c (Hsub c Hc) Hk).
Qed.

(** The statement on the example catalog. *)
Lemma batch_courses_among_all_cs_witness :
  exists all_titles,
    od_get "Core" (get_all_cs_courses example_catalog) = Some all_titles
    /\ incl ["Applied ML"; "Odd Lab"; "Seminar"; "Web Pro"] all_titles.
Proof.
  apply (@batch_courses_among_all_cs example_catalog "BCS-2022" "Core").
  vm_compute. reflexivity.
Defined.

Lemma accepted_same_prefix (lower : string -> string)
  (c1 c2 : TimetableConstraints) (c : Course) :
  get_semester_prefix c1 = get_semester_prefix c2 ->
  required_courses c1 = required_courses c2 ->
  excluded_instructors c1 = excluded_instructors c2 ->
  excluded_time_slots c1 = excluded_time_slots c2 ->
  accepted lower c1 c = accepted lower c2 c.
Proof.
  intros Hp Hr Hi Ht. unfold accepted, instructor_excluded, slot_excluded.
  now rewrite Hp, Hr, Hi, Ht.
Qed.

(** X6: a batch that is not in the batch table is treated as "BCS-2022":
    its semester prefix is "BCS-8", and both [filter_courses] and
    [get_courses_for_batch] give what they give for "BCS-2022". *)
Theorem unknown_batch_defaults_to_2022 (lower : string -> string)
  (courses : list Course) (constraints : TimetableConstraints) :
  ~ In (batch constraints) (od_keys batch_to_semester) ->
  get_semester_prefix constraints = "BCS-8"
  /\ filter_courses lower courses constraints
     = filter_courses lower courses (set_batch constraints "BCS-2022")
  /\ get_courses_for_batch courses (batch constraints)
     = get_courses_for_batch courses "BCS-2022".
Proof.
  intros Hb.
  assert (get_semester_prefix constraints = "BCS-8") as Hp.
  { unfold get_semester_prefix, od_get_default.
    destruct (od_get (batch constraints) batch_to_semester) eqn:Hg;
      [|reflexivity].
    exfalso. apply Hb. apply od_mem_keys. unfold od_mem. now rewrite Hg. }
  split; [assumption|]. split.
  - unfold filter_courses. apply filter_ext. intros c.
    apply accepted_same_prefix; try reflexivity. rewrite Hp. reflexivity.
  - unfold get_courses_for_batch.
    change (get_semester_prefix (default_constraints (batch constraints)))
      with (get_semester_prefix constraints).
    rewrite Hp. reflexivity.
Qed.

(** The statement on the example catalog. *)
Lemma unknown_batch_defaults_to_2022_witness :
  get_semester_prefix (set_batch scenario_a "BCS-2030") = "BCS-8".
Proof.
  assert (~ In (batch (set_batch scenario_a "BCS-2030")) (od_keys batch_to_semester))
    as H by (simpl; intuition discriminate).
  exact (proj1 (@unknown_batch_defaults_to_2022 ascii_lower example_catalog
                  (set_batch scenario_a "BCS-2030") H)).
Defined.

(** ** More on the generator *)

Lemma required_options_count (constraints : TimetableConstraints)
  (grouped : odict (list Course)) :
  length (fst (resolve_required constraints grouped))
  = length (filter (fun name => od_mem name grouped) (required_courses constraints)).
Proof.
  rewrite resolve_required_options.
  induction (required_courses constraints) as [|name names IH]; simpl;
    [reflexivity|].
  unfold od_mem. destruct (od_get name grouped) as [sections|] eqn:Hg.
  - destruct (required_option_found constraints _ _ Hg) as [o [Ho _]].
    rewrite Ho. simpl. now rewrite IH.
  - rewrite (required_option_missing constraints _ _ Hg). simpl. exact IH.
Qed.

Lemma wildcard_combos_loop_raises (by_cat : odict (list string))
  (items : list (string * Z)) (all : list (list string)) :
  (forall cat count, In (cat, count) items -> od_mem cat by_cat = true) ->
  wildcard_combos_loop items by_cat all = RaisesValueError
  <-> exists cat count, In (cat, count) items /\ (count < 0)%Z.
Proof.
  revert all; induction items as [|[cat count] items IH]; intros all Hmem; simpl.
  - split; [discriminate | intros [c [k [[] _]]]].
  - assert (od_mem cat by_cat = true) as Hcat by (apply (Hmem cat count); now left).
    assert (forall c k, In (c, k) items -> od_mem c by_cat = true) as Hmem'
      by (intros c k Hin; apply (Hmem c k); now right).
    rewrite Hcat. simpl negb. simpl orb.
    destruct (Z.eqb_spec count 0) as [->|Hnz].
    + rewrite (IH all Hmem'). split.
      * intros [c [k [Hin Hk]]]. exists c, k. auto.
      * intros [c [k [[[= <- <-]|Hin] Hk]]]; [lia | exists c, k; auto].
    + destruct (Z.ltb_spec (Z.min count (Z.of_nat (length (od_get_default cat by_cat [])))) 0)
        as [Hneg|Hpos].
      * split; [intros _ | reflexivity]. exists cat, count. split; [now left | lia].
      * rewrite (IH _ Hmem'). split.
        -- intros [c [k [Hin Hk]]]. exists c, k. auto.
        -- intros [c [k [[[= <- <-]|Hin] Hk]]]; [lia | exists c, k; auto].
Qed.

Lemma dedupe_covers (seen : list (list string)) (l : list selection) (sel : selection) :
  In sel l ->
  In (_get_slot_pattern sel) seen
  \/ exists kept, In kept (dedupe seen l)
                  /\ _get_slot_pattern kept = _get_slot_pattern sel.
Proof.
  revert seen; induction l as [|x l IH]; intros seen; simpl; [tauto|].
  intros [->|Hin].
  - destruct (in_dec pattern_eq_dec (_get_slot_pattern sel) seen) as [H|H].
    + now left.
    + right. exists sel. split; [now left | reflexivity].
  - destruct (in_dec pattern_eq_dec (_get_slot_pattern x) seen) as [H|H].
    + apply IH. assumption.
    + destruct (IH (_get_slot_pattern x :: seen) Hin) as [[Hx|Hs]|[kept [Hk He]]].
      * right. exists x. split; [now left | assumption].
      * now left.
      * right. exists kept. split; [now right | assumption].
Qed.

Lemma has_conflicts_scheduled_nodup (sel : selection) :
  _has_conflicts sel = false -> NoDup (scheduled_part sel).
Proof.
  unfold scheduled_part. induction sel as [|c sel IH]; simpl; [constructor|].
  rewrite orb_false_iff. intros [Hc Hrest].
  destruct (get_time_slots c) as [|slot slots] eqn:Hs; [now apply IH|].
  constructor; [|now apply IH].
  intros Hin. apply filter_In in Hin. destruct Hin as [Hin _].
  assert (existsb (conflicts_with c) sel = true) as Habs.
  { apply existsb_exists. exists c. split; [assumption|].
    apply conflicts_with_iff. destruct slot as [[d t] v].
    exists d, t, v, v. rewrite Hs. split; now left. }
  congruence.
Qed.

Lemma time_slots_nonempty (c : Course) :
  Forall (fun slot : time_slot =>
            fst (fst slot) <> "" /\ snd (fst slot) <> "" /\ snd slot <> "")
         (get_time_slots c).
Proof.
  assert (forall o s, truthy o = Some s -> s <> "") as Ht.
  { intros [[|a s']|] s; simpl; intros [= <-]; discriminate. }
  assert (forall v, or_default v "TBD" <> "") as Hv.
  { intros v. unfold or_default. destruct (truthy v) eqn:H.
    - eapply Ht; eassumption.
    - discriminate. }
  assert (forall lab day slot venue,
             Forall (fun slot : time_slot =>
                       fst (fst slot) <> "" /\ snd (fst slot) <> ""
                       /\ snd slot <> "")
                    (meeting_block lab day slot venue)) as Hblock.
  { intros lab day slot venue. unfold meeting_block.
    destruct (truthy day) as [d|] eqn:Hd; [|constructor].
    destruct (truthy slot) as [s|] eqn:Hs; [|constructor].
    constructor; [simpl; eauto|].
    destruct lab; [|constructor].
    destruct (truthy (_get_next_slot s)) as [n|] eqn:Hn; [|constructor].
    constructor; [simpl; eauto | constructor]. }
  unfold get_time_slots. apply Forall_app. split; apply Hblock.
Qed.

Section GenerationFacts.

Variable lower : string -> string.
Variable courses : list Course.
Variable constraints : TimetableConstraints.

Lemma required_options_resolvable :
  required_options_of lower courses constraints = []
  <-> resolvable_required lower courses constraints = [].
Proof.
  unfold required_options_of, resolvable_required.
  pose proof (required_options_count constraints
                (get_unique_courses (filter_courses lower courses constraints)))
    as Hlen.
  split; intros H; rewrite H in Hlen; simpl in Hlen.
  - now apply length_zero_iff_nil.
  - now apply length_zero_iff_nil.
Qed.

(** Whether the call raises does not depend on the cap; when it returns,
    it returns the capped deduplication of the enumeration. *)
Lemma generate_cases :
  (forall max_results,
      snd (generate_timetables lower courses constraints max_results)
      = RaisesValueError)
  \/ (forall max_results,
         snd (generate_timetables lower courses constraints max_results)
         = Returns (firstn (effective_cap max_results)
                           (dedupe [] (generation_order lower courses constraints)))).
Proof.
  unfold generate_timetables, generation_order.
  destruct (resolve_required constraints _) as [required_options log].
  destruct (group_wildcards _) as [by_cat by_name].
  destruct required_options as [|o os].
  - right. intros k. simpl. now rewrite firstn_nil.
  - destruct (_generate_wildcard_combos _ _) as [combos|].
    + right. intros k. simpl snd. f_equal.
      change (flat_map (fun x : Course => map (cons x) (product os)) o)
        with (product (o :: os)).
      rewrite generation_loop_flat.
      change (outcome (for_each (emit k)
                         (enumeration by_name combos (o :: os))
                         {| valid_timetables := []; seen_slot_patterns := [] |})
              = firstn (effective_cap k)
                       (dedupe [] (enumeration by_name combos (o :: os)))).
      rewrite emit_loop_outcome; simpl; [|lia].
      unfold effective_cap. now rewrite Nat.sub_0_r.
    + left. intros k. reflexivity.
Qed.

Lemma generate_raises_iff (max_results : Z) :
  snd (generate_timetables lower courses constraints max_results)
  = RaisesValueError
  <-> resolvable_required lower courses constraints <> []
      /\ exists cat count,
          In (cat, count) (wildcard_counts constraints) /\ (count < 0)%Z.
Proof.
  rewrite <- required_options_resolvable.
  unfold generate_timetables, required_options_of.
  set (filtered := filter_courses lower courses constraints).
  pose proof (group_wildcards_inv constraints filtered) as Hgw.
  destruct (resolve_required constraints _) as [required_options log].
  destruct (group_wildcards _) as [by_cat by_name].
  simpl in Hgw. destruct Hgw as [_ Hmem]. simpl fst.
  destruct required_options as [|o os].
  - simpl. split; [discriminate | intros [H _]; congruence].
  - assert (forall cat count,
               In (cat, count) (wildcard_counts constraints) ->
               od_mem cat by_cat = true) as Hm.
    { intros cat count Hin. apply Hmem.
      change cat with (fst (cat, count)). now apply in_map. }
    pose proof (wildcard_combos_loop_raises by_cat (wildcard_counts constraints)
                  [[]] Hm) as Hr.
    unfold _generate_wildcard_combos.
    destruct (wildcard_combos_loop _ _ _) as [combos|]; simpl snd.
    + split; [discriminate|]. intros [_ H]. apply Hr in H. discriminate.
    + split; [|reflexivity]. intros _. split; [discriminate|]. now apply Hr.
Qed.

End GenerationFacts.

(** X7: when no required course name has offerings in the filtered
    catalog (in particular when none is requested), [generate_timetables]
    returns the empty list and ends its diagnostics with the "no required
    courses" warning, whatever the wildcard quotas are. *)
Theorem nothing_resolved_returns_empty (lower : string -> string)
  (courses : list Course) (constraints : TimetableConstraints)
  (max_results : Z) :
  resolvable_required lower courses constraints = [] ->
  exists log,
    generate_timetables lower courses constraints max_results
    = (log ++ [NoRequiredCourses], Returns []).
Proof.
  intros H. apply required_options_resolvable in H.
  unfold required_options_of in H. unfold generate_timetables.
  destruct (resolve_required constraints _) as [required_options log].
  destruct (group_wildcards _) as [by_cat by_name].
  simpl in H. subst required_options. exists log. reflexivity.
Qed.

(** The statement on the example catalog. *)
Lemma nothing_resolved_returns_empty_witness :
  exists log,
    generate_timetables ascii_lower elective_catalog scenario_electives_only 10
    = (log ++ [NoRequiredCourses], Returns []).
Proof.
  apply (@nothing_resolved_returns_empty ascii_lower elective_catalog
           scenario_electives_only 10).
  vm_compute. reflexivity.
Defined.

(** X8: [generate_timetables] raises [ValueError] exactly when some
    required course is resolved and some wildcard quota is negative;
    otherwise it returns a list. *)
Theorem generation_raises_exactly (lower : string -> string)
  (courses : list Course) (constraints : TimetableConstraints)
  (max_results : Z) :
  (snd (generate_timetables lower courses constraints max_results)
   = RaisesValueError
   <-> resolvable_required lower courses constraints <> []
       /\ exists cat count,
           In (cat, count) (wildcard_counts constraints) /\ (count < 0)%Z)
  /\ (snd (generate_timetables lower courses constraints max_results)
      <> RaisesValueError ->
      exists res,
        snd (generate_timetables lower courses constraints max_results)
        = Returns res).
Proof.
  split; [apply generate_raises_iff|].
  destruct (snd (generate_timetables lower courses constraints max_results));
    [eauto | congruence].
Qed.

(** X9: raising the cap only appends: when the call returns for a cap, it
    returns for every larger cap a list that starts with the same
    selections. *)
Theorem larger_cap_extends_result (lower : string -> string)
  (courses : list Course) (constraints : TimetableConstraints)
  (k k' : Z) (res : list selection) :
  (k <= k')%Z ->
  snd (generate_timetables lower courses constraints k) = Returns res ->
  exists rest,
    snd (generate_timetables lower courses constraints k')
    = Returns (res ++ rest).
Proof.
  intros Hk H.
  destruct (generate_cases lower courses constraints) as [Hr|Hr];
    [rewrite Hr in H; discriminate|].
  rewrite Hr in H. injection H as <-. rewrite (Hr k').
  set (L := dedupe [] (generation_order lower courses constraints)).
  exists (skipn (effective_cap k) (firstn (effective_cap k') L)). f_equal.
  rewrite <- (firstn_skipn (effective_cap k) (firstn (effective_cap k') L)) at 1.
  f_equal. rewrite firstn_firstn. f_equal. unfold effective_cap. lia.
Qed.

(** The statement on the example catalog. *)
Lemma larger_cap_extends_result_witness :
  exists rest,
    snd (generate_timetables ascii_lower example_catalog scenario_seminar 5)
    = Returns ([[web_a; seminar]] ++ rest).
Proof.
  apply (@larger_cap_extends_result ascii_lower example_catalog scenario_seminar 1 5).
  - lia.
  - vm_compute. reflexivity.
Defined.

(** X10: every offering of every returned selection passed the filter: it
    is in the catalog, its section starts with "BCS-", no excluded
    instructor string occurs (case mapped) in its instructor names, and no
    slot it occupies starts with an excluded slot prefix. *)
Theorem returned_offerings_respect_exclusions (lower : string -> string)
  (courses : list Course) (constraints : TimetableConstraints)
  (max_results : Z) (res : list selection) (sel : selection) (c : Course) :
  snd (generate_timetables lower courses constraints max_results) = Returns res ->
  In sel res -> In c sel ->
  In c courses
  /\ prefix "BCS-" (section c) = true
  /\ (forall exc,
         In exc (excluded_instructors constraints) ->
         str_contains (lower exc) (lower (instructor c)) = false
         /\ str_contains (lower exc) (lower (instructor_short c)) = false)
  /\ (forall day time venue exc,
         In (day, time, venue) (get_time_slots c) ->
         In exc (excluded_time_slots constraints) ->
         prefix exc time = false).
Proof.
  intros H Hsel Hc.
  apply (@generated_In_order lower courses constraints max_results res sel H) in Hsel.
  apply generation_order_shape in Hsel.
  destruct Hsel as [_ [req [wcs [-> [_ [Hreq [Hwcs _]]]]]]].
  assert (In c (filter_courses lower courses constraints)) as Hf.
  { apply in_app_or in Hc. destruct Hc as [Hc|Hc].
    - revert c Hc. now apply Forall_forall.
    - apply (proj1 (Forall_forall _ _) Hwcs c Hc). }
  apply filter_courses_In in Hf. destruct Hf as [Hin Hacc].
  apply accepted_iff in Hacc. destruct Hacc as [Hp [_ [Hi Hs]]].
  split; [assumption|]. split; [assumption|]. split.
  - intros exc Hexc. unfold instructor_excluded in Hi.
    apply orb_false_iff.
    destruct (str_contains (lower exc) (lower (instructor c))
              || str_contains (lower exc) (lower (instructor_short c))) eqn:He;
      [|reflexivity].
    assert (existsb
              (fun exc =>
                 str_contains (lower exc) (lower (instructor c))
                 || str_contains (lower exc) (lower (instructor_short c)))
              (excluded_instructors constraints) = true) as Habs
      by (apply existsb_exists; eauto).
    congruence.
  - intros day time venue exc Hslot Hexc. unfold slot_excluded in Hs.
    destruct (prefix exc time) eqn:He; [|reflexivity].
    assert (time <> "") as Hne.
    { pose proof (time_slots_nonempty c) as Hall.
      apply (proj1 (Forall_forall _ _) Hall _) in Hslot. simpl in Hslot. tauto. }
    assert (existsb
              (fun slot : time_slot =>
                 existsb
                   (fun exc_slot =>
                      negb (String.eqb (snd (fst slot)) "")
                      && prefix exc_slot (snd (fst slot)))
                   (excluded_time_slots constraints))
              (get_time_slots c) = true) as Habs.
    { apply existsb_exists. exists (day, time, venue). split; [assumption|].
      apply existsb_exists. exists exc. split; [assumption|]. simpl.
      rewrite He. destruct (String.eqb_spec time ""); [contradiction | reflexivity]. }
    congruence.
Qed.

(** The statement on the example catalog. *)
Lemma returned_offerings_respect_exclusions_witness :
  In web_b example_catalog /\ prefix "BCS-" (section web_b) = true.
Proof.
  assert (snd (generate_timetables ascii_lower example_catalog
                 (scenario_preference ["smith"]) 10) = Returns [[web_b]]) as H
    by (vm_compute; reflexivity).
  destruct (@returned_offerings_respect_exclusions ascii_lower example_catalog
              (scenario_preference ["smith"]) 10 [[web_b]] [web_b] web_b H
              (or_introl eq_refl) (or_introl eq_refl)) as [H1 [H2 _]].
  split; assumption.
Defined.

(** X11: a returned selection never holds the same offering twice, unless
    the offering occupies no slot. *)
Theorem returned_selection_without_repeats (lower : string -> string)
  (courses : list Course) (constraints : TimetableConstraints)
  (max_results : Z) (res : list selection) (sel : selection) :
  snd (generate_timetables lower courses constraints max_results) = Returns res ->
  In sel res -> NoDup (scheduled_part sel).
Proof.
  intros H Hsel.
  apply (@generated_In_order lower courses constraints max_results res sel H) in Hsel.
  apply generation_order_shape in Hsel. destruct Hsel as [Hok _].
  now apply has_conflicts_scheduled_nodup.
Qed.

(** The statement on the example catalog. *)
Lemma returned_selection_without_repeats_witness :
  NoDup (scheduled_part [web_b; applied_ml]).
Proof.
  apply (@returned_selection_without_repeats ascii_lower example_catalog
           scenario_a 10 [[web_b; applied_ml]]).
  - vm_compute. reflexivity.
  - now left.
Defined.

(** X12: when the call returns fewer selections than the cap allows, no
    slot pattern is missed: every selection the generator meets has the
    slot pattern of a returned one. *)
Theorem below_cap_every_pattern_returned (lower : string -> string)
  (courses : list Course) (constraints : TimetableConstraints)
  (max_results : Z) (res : list selection) (sel : selection) :
  snd (generate_timetables lower courses constraints max_results) = Returns res ->
  (length res < effective_cap max_results)%nat ->
  In sel (generation_order lower courses constraints) ->
  exists kept, In kept res /\ _get_slot_pattern kept = _get_slot_pattern sel.
Proof.
  intros H Hlen Hsel.
  apply generate_returns in H. subst res.
  set (L := dedupe [] (generation_order lower courses constraints)) in *.
  rewrite length_firstn in Hlen.
  rewrite firstn_all2 by lia.
  destruct (dedupe_covers [] _ _ Hsel) as [[]|Hk]. exact Hk.
Qed.

(** The statement on the example catalog. *)
Lemma below_cap_every_pattern_returned_witness :
  exists kept,
    In kept [[web_b; applied_ml]]
    /\ _get_slot_pattern kept = _get_slot_pattern [web_b; applied_ml].
Proof.
  apply (@below_cap_every_pattern_returned ascii_lower example_catalog
           scenario_a 10).
  - vm_compute. reflexivity.
  - vm_compute. lia.
  - vm_compute. now left.
Defined.

Lemma flat_map_singletons (A : Type) (f : A -> list A) (p : A -> bool)
  (l : list A) :
  (forall x, f x = if p x then [x] else []) ->
  flat_map f l = filter p l.
Proof.
  intros Hf. induction l as [|x l IH]; [reflexivity|].
  simpl. rewrite Hf, IH. now destruct (p x).
Qed.

Lemma generation_order_without_wildcards (lower : string -> string)
  (courses : list Course) (constraints : TimetableConstraints) :
  wildcard_counts constraints = [] ->
  required_options_of lower courses constraints <> [] ->
  generation_order lower courses constraints
  = filter (fun sel => negb (_has_conflicts sel))
           (product (required_options_of lower courses constraints)).
Proof.
  intros Hw Hne. unfold generation_order, required_options_of in *.
  destruct (resolve_required constraints _) as [required_options log].
  destruct (group_wildcards _) as [by_cat by_name].
  simpl in Hne. destruct required_options as [|o os] eqn:Hopts; [congruence|].
  rewrite <- Hopts. clear Hopts Hne. simpl fst.
  rewrite Hw. cbn [_generate_wildcard_combos wildcard_combos_loop].
  unfold enumeration. apply flat_map_singletons.
  intros req. unfold required_candidates.
  destruct (_has_conflicts req); reflexivity.
Qed.

(** X13: without wildcard quotas, and with at least one required course
    resolved, [generate_timetables] returns, and what it returns is: of the
    picks of one option per resolved required course, in the order of the
    product, those without a conflict, of which the first of every slot
    pattern is kept, cut at the effective cap. *)
Theorem result_without_wildcards (lower : string -> string)
  (courses : list Course) (constraints : TimetableConstraints)
  (max_results : Z) :
  wildcard_counts constraints = [] ->
  required_options_of lower courses constraints <> [] ->
  snd (generate_timetables lower courses constraints max_results)
  = Returns
      (firstn (effective_cap max_results)
         (dedupe []
            (filter (fun sel => negb (_has_conflicts sel))
               (product (required_options_of lower courses constraints))))).
Proof.
  intros Hw Hne.
  destruct (generate_cases lower courses constraints) as [Hraise|Hret].
  - specialize (Hraise max_results). apply generate_raises_iff in Hraise.
    destruct Hraise as [_ [cat [count [Hin _]]]].
    rewrite Hw in Hin. contradiction.
  - rewrite Hret. now rewrite generation_order_without_wildcards.
Qed.

(** The statement on the example catalog. *)
Lemma result_without_wildcards_witness :
  snd (generate_timetables ascii_lower example_catalog scenario_a 10)
  = Returns
      (firstn (effective_cap 10)
         (dedupe []
            (filter (fun sel => negb (_has_conflicts sel))
               (product (required_options_of ascii_lower example_catalog
                           scenario_a))))).
Proof.
  apply (@result_without_wildcards ascii_lower example_catalog scenario_a 10).
  - reflexivity.
  - vm_compute. discriminate.
Defined.

(** ** Conflicts, slot patterns and categories *)

Lemma existsb_permutation (A : Type) (f : A -> bool) (l l' : list A) :
  Permutation l l' -> existsb f l = existsb f l'.
Proof.
  intros Hp. apply eq_true_iff_eq. rewrite !existsb_exists.
  split; intros [x [Hx Hf]]; exists x; split; try assumption.
  - eapply Permutation_in; eassumption.
  - eapply Permutation_in; [symmetry|]; eassumption.
Qed.

Lemma has_conflicts_permutation (sel sel' : selection) :
  Permutation sel sel' -> _has_conflicts sel = _has_conflicts sel'.
Proof.
  induction 1 as [|x l l' Hp IH|x y l|l l' l'' _ IH1 _ IH2]; simpl.
  - reflexivity.
  - now rewrite (existsb_permutation _ Hp), IH.
  - rewrite (conflicts_with_sym x y).
    destruct (conflicts_with y x), (existsb (conflicts_with y) l),
      (existsb (conflicts_with x) l), (_has_conflicts l); reflexivity.
  - congruence.
Qed.

(** X14: conflict detection does not depend on order: [conflicts_with] is
    symmetric, an offering that occupies a slot conflicts with itself, and
    [_has_conflicts] gives the same answer on every reordering of a
    selection. *)
Theorem conflict_detection_order_independent (a b : Course) :
  conflicts_with a b = conflicts_with b a
  /\ (get_time_slots a <> [] -> conflicts_with a a = true)
  /\ (forall sel sel',
         Permutation sel sel' -> _has_conflicts sel = _has_conflicts sel').
Proof.
  split; [apply conflicts_with_sym|]. split; [|apply has_conflicts_permutation].
  intros Hne. apply conflicts_with_iff.
  destruct (get_time_slots a) as [|[[d t] v] slots] eqn:Hs; [congruence|].
  exists d, t, v, v. rewrite Hs. split; now left.
Qed.

Lemma slot_keys_permutation (sel sel' : selection) :
  Permutation sel sel' -> Permutation (slot_keys sel) (slot_keys sel').
Proof. unfold slot_keys. apply Permutation_flat_map. Qed.

(** X15: the slot pattern of a selection is the ascending list of the
    [day_time] keys of all the slots its offerings occupy, each key as many
    times as it is occupied; it is the same for every reordering of the
    selection. *)
Theorem slot_pattern_sorted_and_stable (sel : selection) :
  StronglySorted str_le (_get_slot_pattern sel)
  /\ Permutation (_get_slot_pattern sel) (slot_keys sel)
  /\ (forall sel',
         Permutation sel sel' -> _get_slot_pattern sel = _get_slot_pattern sel').
Proof.
  rewrite get_slot_pattern_keys.
  split; [apply sorted_sorted|]. split; [apply sorted_perm|].
  intros sel' Hp. rewrite get_slot_pattern_keys.
  apply sorted_permutation_eq. now apply slot_keys_permutation.
Qed.

Lemma matches_university (cat : string) :
  _matches_wildcard cat "University Elective"
  = str_in cat UNIVERSITY_ELECTIVE_CATEGORIES.
Proof. reflexivity. Qed.

Lemma matches_cs (cat : string) :
  _matches_wildcard cat "CS Elective" = String.eqb cat CS_ELECTIVE_CATEGORY.
Proof. reflexivity. Qed.

Lemma matches_robo (cat : string) :
  _matches_wildcard cat "Robo Elective" = String.eqb cat ROBO_ELECTIVE_CATEGORY.
Proof. reflexivity. Qed.

Lemma matches_legacy (cat wildcard : string) :
  ~ In wildcard ["University Elective"; "CS Elective"; "Robo Elective"] ->
  _matches_wildcard cat wildcard = String.eqb cat wildcard.
Proof.
  intros H. unfold _matches_wildcard.
  destruct (String.eqb_spec wildcard "University Elective") as [->|_];
    [exfalso; apply H; simpl; tauto|].
  destruct (String.eqb_spec wildcard "CS Elective") as [->|_];
    [exfalso; apply H; simpl; tauto|].
  destruct (String.eqb_spec wildcard "Robo Elective") as [->|_];
    [exfalso; apply H; simpl; tauto|].
  reflexivity.
Qed.

(** X16: the three simplified wildcard labels are mutually exclusive: a
    course category matches at most one of them, and none of the labels
    matches itself as a category; any other wildcard string matches
    exactly the category equal to it. *)
Theorem wildcard_labels_exclusive (cat w1 w2 : string) :
  (In w1 ["University Elective"; "CS Elective"; "Robo Elective"] ->
   In w2 ["University Elective"; "CS Elective"; "Robo Elective"] ->
   _matches_wildcard cat w1 = true -> _matches_wildcard cat w2 = true ->
   w1 = w2 /\ cat <> w1)
  /\ (~ In w1 ["University Elective"; "CS Elective"; "Robo Elective"] ->
      (_matches_wildcard cat w1 = true <-> cat = w1)).
Proof.
  split.
  - intros H1 H2 M1 M2.
    assert (forall w,
               In w ["University Elective"; "CS Elective"; "Robo Elective"] ->
               _matches_wildcard cat w = true ->
               (w = "University Elective"
                /\ In cat ["MG (Elective)"; "HSS (Elective)"; "Mandatory Elec"])
               \/ (w = "CS Elective" /\ cat = "CS (Elective)")
               \/ (w = "Robo Elective" /\ cat = "Robo (Elective)")) as Hcases.
    { intros w Hw Hm. simpl in Hw.
      destruct Hw as [<-|[<-|[<-|[]]]].
      - left. split; [reflexivity|]. rewrite matches_university in Hm.
        now apply str_in_iff in Hm.
      - right. left. split; [reflexivity|]. rewrite matches_cs in Hm.
        now apply String.eqb_eq in Hm.
      - right. right. split; [reflexivity|]. rewrite matches_robo in Hm.
        now apply String.eqb_eq in Hm. }
    destruct (Hcases w1 H1 M1) as [[-> C1]|[[-> C1]|[-> C1]]];
      destruct (Hcases w2 H2 M2) as [[-> C2]|[[-> C2]|[-> C2]]];
      simpl in C1, C2; subst;
      repeat match goal with
             | H : _ \/ _ |- _ => destruct H; subst
             | H : False |- _ => contradiction
             end;
      try discriminate; split; try reflexivity; discriminate.
  - intros H. rewrite (matches_legacy cat H). apply String.eqb_eq.
Qed.

(** The statement on a category of the catalog. *)
Lemma wildcard_labels_exclusive_witness :
  "CS Elective" = "CS Elective" /\ "CS (Elective)" <> "CS Elective".
Proof.
  apply (proj1 (wildcard_labels_exclusive "CS (Elective)" "CS Elective" "CS Elective"));
    simpl; auto.
Defined.

(** X17: an offering occupies at most four slots, at most two when it is
    not a lab, and every triple it occupies has a non-empty day, a non-empty
    slot start and a non-empty venue ("TBD" when none is stored). *)
Theorem occupied_slots_bounded (c : Course) :
  (length (get_time_slots c) <= 4)%nat
  /\ (is_lab c = false -> (length (get_time_slots c) <= 2)%nat)
  /\ Forall (fun slot : time_slot =>
               fst (fst slot) <> "" /\ snd (fst slot) <> "" /\ snd slot <> "")
            (get_time_slots c).
Proof.
  assert (forall lab day slot venue,
             (length (meeting_block lab day slot venue) <= 2)%nat
             /\ (lab = false ->
                 (length (meeting_block lab day slot venue) <= 1)%nat)) as Hb.
  { intros lab day slot venue. unfold meeting_block.
    destruct (truthy day); [|simpl; lia].
    destruct (truthy slot); [|simpl; lia].
    destruct lab; [|simpl; split; lia].
    destruct (truthy (_get_next_slot s0)); simpl; split; try lia; discriminate. }
  unfold get_time_slots. rewrite length_app.
  destruct (Hb (is_lab c) (day1 c) (slot1 c) (venue1 c)) as [H1 H1'].
  destruct (Hb (is_lab c) (day2 c) (slot2 c) (venue2 c)) as [H2 H2'].
  split; [lia|]. split.
  - intros Hl. specialize (H1' Hl). specialize (H2' Hl). lia.
  - apply (time_slots_nonempty c).
Qed.

(** ** The greedy builder *)

Lemma build_combo_loop_sound (filtered : list Course) (names : list string)
  (combo result : list Course) :
  build_combo_loop filtered names combo = Some result ->
  exists picks,
    result = combo ++ picks
    /\ Forall2 (fun pick name => In pick filtered /\ short_title pick = name)
               picks names
    /\ (names <> [] -> _has_conflicts result = false).
Proof.
  revert combo; induction names as [|name names IH]; intros combo; simpl.
  - intros [= <-]. exists []. rewrite app_nil_r.
    split; [reflexivity|]. split; [constructor | congruence].
  - destruct (find _ _) as [pick|] eqn:Hf; [|discriminate].
    apply find_some in Hf. destruct Hf as [Hin Hok].
    apply filter_In in Hin. destruct Hin as [Hin Ht].
    apply String.eqb_eq in Ht. apply negb_true_iff in Hok.
    intros H. destruct (IH _ H) as [picks [-> [Hp Hc]]].
    exists (pick :: picks). rewrite <- app_assoc. simpl.
    split; [reflexivity|]. split; [constructor; auto|].
    intros _. destruct names as [|n names].
    + inversion Hp; subst. exact Hok.
    + rewrite <- app_assoc in Hc. simpl in Hc. apply Hc. discriminate.
Qed.

Lemma build_combo_loop_missing (filtered : list Course) (names : list string)
  (combo : list Course) (name : string) :
  In name names ->
  (forall c, In c filtered -> short_title c <> name) ->
  build_combo_loop filtered names combo = None.
Proof.
  intros Hin Hmiss. revert combo; induction names as [|n names IH]; intros combo;
    [contradiction|]. simpl.
  destruct (find _ _) as [pick|] eqn:Hf; [|reflexivity].
  destruct Hin as [->|Hin]; [|now apply IH].
  apply find_some in Hf. destruct Hf as [Hf _].
  apply filter_In in Hf. destruct Hf as [Hf Ht]. apply String.eqb_eq in Ht.
  exfalso. exact (Hmiss pick Hf Ht).
Qed.

Lemma has_conflicts_app_l (l1 l2 : list Course) :
  _has_conflicts l1 = true -> _has_conflicts (l1 ++ l2) = true.
Proof.
  induction l1 as [|c l1 IH]; simpl; [discriminate|].
  rewrite !orb_true_iff. intros [H|H]; [left | right; now apply IH].
  apply existsb_exists in H. destruct H as [x [Hx Hc]].
  apply existsb_exists. exists x. split; [apply in_or_app; now left | assumption].
Qed.

(** X18: when [_build_combo_with_wildcards] returns a combo, the combo is
    the required courses followed by one pick per wildcard name, in the
    order of the names, each pick an offering of the filtered list with
    that short title; and the combo has no conflicts as soon as a name was
    asked for or the required courses had none. *)
Theorem greedy_combo_sound (required : list Course) (wildcard_names : list string)
  (grouped : odict (list Course)) (filtered combo : list Course) :
  _build_combo_with_wildcards required wildcard_names grouped filtered
  = Some combo ->
  exists picks,
    combo = required ++ picks
    /\ Forall2 (fun pick name => In pick filtered /\ short_title pick = name)
               picks wildcard_names
    /\ (wildcard_names <> [] \/ _has_conflicts required = false ->
        _has_conflicts combo = false).
Proof.
  unfold _build_combo_with_wildcards. intros H.
  destruct (build_combo_loop_sound _ _ _ H) as [picks [-> [Hp Hc]]].
  exists picks. split; [reflexivity|]. split; [assumption|].
  intros [Hn|Hr]; [now apply Hc|].
  destruct wildcard_names as [|n names]; [|apply Hc; discriminate].
  inversion Hp; subst. now rewrite app_nil_r.
Qed.

(** The statement on the example catalog. *)
Lemma greedy_combo_sound_witness :
  exists picks,
    [web_b; data_mining_a] = [web_b] ++ picks
    /\ Forall2 (fun pick name =>
                  In pick elective_catalog /\ short_title pick = name)
               picks ["Data Mining"].
Proof.
  destruct (@greedy_combo_sound [web_b] ["Data Mining"] [] elective_catalog
              [web_b; data_mining_a] eq_refl) as [picks [H1 [H2 _]]].
  exists picks. split; assumption.
Defined.

(** X19: [_build_combo_with_wildcards] gives the required courses back
    when no wildcard name is asked for, and gives [None] when a wildcard
    name has no offering in the filtered list, or when a name is asked for
    while the required courses already conflict. *)
Theorem greedy_combo_failure (required : list Course)
  (wildcard_names : list string) (grouped : odict (list Course))
  (filtered : list Course) :
  (wildcard_names = [] ->
   _build_combo_with_wildcards required wildcard_names grouped filtered
   = Some required)
  /\ (forall name,
         In name wildcard_names ->
         (forall c, In c filtered -> short_title c <> name) ->
         _build_combo_with_wildcards required wildcard_names grouped filtered
         = None)
  /\ (wildcard_names <> [] -> _has_conflicts required = true ->
      _build_combo_with_wildcards required wildcard_names grouped filtered
      = None).
Proof.
  unfold _build_combo_with_wildcards. split; [|split].
  - intros ->. reflexivity.
  - intros name Hin Hmiss. eapply build_combo_loop_missing; eassumption.
  - intros Hne Hc. destruct wildcard_names as [|n names]; [congruence|]. simpl.
    destruct (find _ _) as [pick|] eqn:Hf; [|reflexivity].
    apply find_some in Hf. destruct Hf as [_ Hok].
    apply negb_true_iff in Hok.
    rewrite (has_conflicts_app_l _ [pick] Hc) in Hok. discriminate.
Qed.

(** ** Grouping by short title *)

(** X20: [get_unique_courses] has one key per short title of the list;
    looking a short title up gives the courses of the list with that short
    title, in list order, and nothing for a short title of no course; so
    every course of the list is in the group of its short title. *)
Theorem unique_courses_lookup (l : list Course) :
  NoDup (od_keys (get_unique_courses l))
  /\ (forall name,
         od_get name (get_unique_courses l)
         = match filter (fun c => String.eqb (short_title c) name) l with
           | [] => None
           | g => Some g
           end)
  /\ (forall c, In c l ->
                exists g, od_get (short_title c) (get_unique_courses l) = Some g
                          /\ In c g).
Proof.
  split; [apply get_unique_courses_nodup|]. split.
  - intros name. apply get_unique_courses_get.
  - intros c Hc. rewrite get_unique_courses_get.
    assert (In c (group_of (short_title c) l)) as Hg
      by (apply group_of_In; auto).
    destruct (group_of (short_title c) l) as [|x g]; [contradiction|].
    exists (x :: g). auto.
Qed.

(** ** Slot keys of the web layer *)

Lemma before_dash_app (start rest : string) :
  str_contains "-" start = false ->
  before_dash (start ++ "-" ++ rest) = start.
Proof.
  induction start as [|a start IH]; intros H.
  - reflexivity.
  - rewrite str_contains_unfold in H.
    destruct (prefix "-" (String a start)) eqn:Hp; [discriminate|].
    assert (a <> "-"%char) as Hne.
    { intros ->.
      assert (prefix "-" (String "-" start) = true) as Habs
        by (apply prefix_iff; exists start; reflexivity).
      congruence. }
    simpl. destruct (Ascii.eqb_spec a "-"); [congruence|].
    f_equal. apply IH. exact H.
Qed.

Lemma str_contains_app_r (needle a b : string) :
  str_contains needle (a ++ needle ++ b) = true.
Proof. apply str_contains_iff. eauto. Qed.

Lemma get_slot_pattern_fold (sel : selection) (acc : list string) (k : string) :
  In k (fold_left
          (fun slots course =>
             fold_left
               (fun slots (slot : time_slot) =>
                  let '(day, time, _) := slot in
                  set_add (get_slot_key day time) slots)
               (get_time_slots course) slots)
          sel acc)
  <-> In k acc
      \/ exists c day time venue,
          In c sel /\ In (day, time, venue) (get_time_slots c)
          /\ k = get_slot_key day time.
Proof.
  assert (forall (slots : list time_slot) acc,
             In k (fold_left
                     (fun acc (slot : time_slot) =>
                        let '(day, time, _) := slot in
                        set_add (get_slot_key day time) acc)
                     slots acc)
             <-> In k acc
                 \/ exists day time venue,
                     In (day, time, venue) slots /\ k = get_slot_key day time)
    as Hinner.
  { induction slots as [|[[d t] v] slots IH]; intros a; simpl.
    - split; [auto | intros [H|[d [t [v [[] _]]]]]; assumption].
    - rewrite IH, set_add_In. split.
      + intros [[->|H]|[d' [t' [v' [Hin Hk]]]]].
        * right. exists d, t, v. auto.
        * now left.
        * right. exists d', t', v'. auto.
      + intros [H|[d' [t' [v' [[[= <- <- <-]|Hin] Hk]]]]].
        * left. now right.
        * left. now left.
        * right. exists d', t', v'. auto. }
  revert acc; induction sel as [|c sel IH]; intros acc; simpl.
  - split; [auto | intros [H|[c [d [t [v [[] _]]]]]]; assumption].
  - rewrite IH, Hinner. split.
    + intros [[H|[d [t [v [Hin Hk]]]]]|[c' [d [t [v [Hc [Hin Hk]]]]]]].
      * now left.
      * right. exists c, d, t, v. auto.
      * right. exists c', d, t, v. auto.
    + intros [H|[c' [d [t [v [[<-|Hc] [Hin Hk]]]]]]].
      * left. now left.
      * left. right. exists d, t, v. auto.
      * right. exists c', d, t, v. auto.
Qed.

Lemma slot_keys_In (sel : selection) (k : string) :
  In k (slot_keys sel)
  <-> exists c day time venue,
      In c sel /\ In (day, time, venue) (get_time_slots c)
      /\ k = (day ++ "_" ++ time)%string.
Proof.
  unfold slot_keys. rewrite in_flat_map. split.
  - intros [c [Hc Hk]]. apply in_map_iff in Hk.
    destruct Hk as [[[d t] v] [Hk Hin]]. exists c, d, t, v. auto.
  - intros [c [d [t [v [Hc [Hin ->]]]]]]. exists c. split; [assumption|].
    apply in_map_iff. exists (d, t, v). auto.
Qed.

(** X21: the web layer's slot key cuts a slot string at its first dash
    ("08:30-09:50" gives the key of "08:30"); on selections whose slot
    strings hold no dash, the web layer's slot pattern has exactly the keys
    of the generator's slot pattern. *)
Theorem web_slot_pattern_agrees (sel : selection) :
  (forall day start rest,
      str_contains "-" start = false ->
      get_slot_key day (start ++ "-" ++ rest) = get_slot_key day start)
  /\ ((forall c day time venue,
          In c sel -> In (day, time, venue) (get_time_slots c) ->
          str_contains "-" time = false) ->
      forall key,
        In key (get_slot_pattern sel) <-> In key (_get_slot_pattern sel)).
Proof.
  split.
  - intros day start rest H. unfold get_slot_key.
    rewrite (str_contains_app_r "-" start rest), H.
    now rewrite before_dash_app.
  - intros Hnd key. unfold get_slot_pattern.
    rewrite get_slot_pattern_fold, get_slot_pattern_keys, sorted_In, slot_keys_In.
    split.
    + intros [[]|[c [d [t [v [Hc [Hin ->]]]]]]]. exists c, d, t, v.
      split; [assumption|]. split; [assumption|].
      unfold get_slot_key. now rewrite (Hnd c d t v Hc Hin).
    + intros [c [d [t [v [Hc [Hin ->]]]]]]. right. exists c, d, t, v.
      split; [assumption|]. split; [assumption|].
      unfold get_slot_key. now rewrite (Hnd c d t v Hc Hin).
Qed.

(** ** Wildcard picks *)

Lemma empty_pools_values (P : Course -> Prop) (cats : list string)
  (d : odict (list Course)) :
  all_values P d ->
  all_values P (fold_left (fun d cat => od_set cat [] d) cats d).
Proof.
  revert d; induction cats as [|cat cats IH]; intros d Hd; simpl; [assumption|].
  apply IH. intros k v. rewrite od_get_set.
  destruct (String.eqb cat k); [intros [= <-]; constructor | apply Hd].
Qed.

Lemma fill_pools_values (P : Course -> Prop) (constraints : TimetableConstraints)
  (l : list Course) (d : odict (list Course)) :
  (forall c cat,
      In c l ->
      str_in (short_title c) (required_courses constraints) = false ->
      find (fun wildcard_cat => _matches_wildcard (category c) wildcard_cat)
           (od_keys (wildcard_counts constraints)) = Some cat ->
      P c) ->
  all_values P d ->
  all_values P (fold_left (add_to_pool constraints) l d).
Proof.
  revert d; induction l as [|c l IH]; intros d HP Hd; simpl; [assumption|].
  apply IH; [intros c' cat Hc'; apply (HP c' cat); now right|].
  unfold add_to_pool.
  destruct (str_in (short_title c) (required_courses constraints)) eqn:Hr;
    [assumption|].
  destruct (find _ _) as [cat|] eqn:Hf; [|assumption].
  apply (od_push_values (P := P) cat c Hd).
  apply (HP c cat); auto. now left.
Qed.

Lemma wildcard_pools_picks (constraints : TimetableConstraints)
  (filtered : list Course) :
  all_values (wildcard_pick constraints filtered)
             (fill_wildcard_pools constraints filtered).
Proof.
  unfold fill_wildcard_pools. apply fill_pools_values.
  - intros c cat Hc Hr Hf. apply find_some in Hf. destruct Hf as [Hin Hm].
    split; [split; assumption|]. exists cat. auto.
  - apply empty_pools_values. intros k v H. discriminate.
Qed.

Lemma generation_order_picks (lower : string -> string) (courses : list Course)
  (constraints : TimetableConstraints) (sel : selection) :
  In sel (generation_order lower courses constraints) ->
  exists req wcs,
    sel = req ++ wcs
    /\ map short_title req = resolvable_required lower courses constraints
    /\ Forall (wildcard_pick constraints
                 (filter_courses lower courses constraints)) wcs.
Proof.
  unfold generation_order, resolvable_required.
  set (filtered := filter_courses lower courses constraints).
  pose proof (resolve_required_options constraints (get_unique_courses filtered)) as Hro.
  pose proof (group_wildcards_inv constraints filtered) as Hgw.
  pose proof (wildcard_pools_picks constraints filtered) as Hpools.
  destruct (fill_wildcard_pools_inv constraints filtered) as [_ [Hnd _]].
  pose proof (@group_wildcards_fold_inv (wildcard_pick constraints filtered)
                (fill_wildcard_pools constraints filtered) ([], [])) as Hinv.
  rewrite <- group_wildcards_fold in Hinv.
  destruct (resolve_required constraints _) as [required_options log].
  destruct (group_wildcards _) as [by_cat by_name].
  simpl in Hro, Hgw, Hinv. destruct Hgw as [_ Hmem].
  destruct Hinv as [Hres _].
  { intros cat pool Hin. apply (Hpools cat). now apply od_In_get. }
  { split; [intros name sections H; discriminate
           | intros cat names name H; discriminate]. }
  destruct required_options as [|o os] eqn:Hopts; [contradiction|].
  rewrite <- Hopts in *. clear Hopts.
  destruct (_generate_wildcard_combos _ _) as [combos|] eqn:Hcombos; [|contradiction].
  intros H. apply enumeration_In in H.
  destruct H as [_ [req [names [wcs [Hreq [Hnames [Hwcs ->]]]]]]].
  exists req, wcs. split; [reflexivity|].
  apply product_In in Hreq. rewrite Hro in Hreq.
  apply required_options_titles in Hreq. destruct Hreq as [Ht _].
  split; [assumption|].
  assert (Z.of_nat (length names)
          = (0 + quota_total (wildcard_counts constraints) by_cat)%Z
          /\ Forall (offered_name by_cat) names) as [_ Hoff].
  { apply wildcard_combos_loop_inv
      with (items := wildcard_counts constraints) (all := [[]]) (combos := combos);
      [| |exact Hcombos|exact Hnames].
    - intros cat count Hin. apply Hmem.
      change cat with (fst (cat, count)). now apply in_map.
    - intros c [<-|[]]. split; [reflexivity | constructor]. }
  exact (proj2 (@wildcard_section_options_resolved _ _ _ _ _ Hres Hoff Hwcs)).
Qed.

(** X22: in every returned selection, the offerings after the required
    picks are wildcard picks: each has a category that matches one of the
    requested wildcard categories, a short title that is not required, and
    a section of the batch's semester. *)
Theorem wildcard_picks_match_request (lower : string -> string)
  (courses : list Course) (constraints : TimetableConstraints)
  (max_results : Z) (res : list selection) (sel : selection) :
  snd (generate_timetables lower courses constraints max_results) = Returns res ->
  In sel res ->
  exists req wcs,
    sel = req ++ wcs
    /\ map short_title req = resolvable_required lower courses constraints
    /\ Forall
         (fun c =>
            (exists cat,
                In cat (od_keys (wildcard_counts constraints))
                /\ _matches_wildcard (category c) cat = true)
            /\ ~ In (short_title c) (required_courses constraints)
            /\ prefix (get_semester_prefix constraints) (section c) = true)
         wcs.
Proof.
  intros H Hsel.
  apply (@generated_In_order lower courses constraints max_results res sel H) in Hsel.
  apply generation_order_picks in Hsel.
  destruct Hsel as [req [wcs [-> [Ht Hw]]]].
  exists req, wcs. split; [reflexivity|]. split; [assumption|].
  eapply Forall_impl; [|exact Hw].
  intros c [[Hf Hr] Hm].
  assert (~ In (short_title c) (required_courses constraints)) as Hnr
    by (intros Habs; apply str_in_iff in Habs; congruence).
  split; [assumption|]. split; [assumption|].
  apply filter_courses_In in Hf. destruct Hf as [_ Hacc].
  exact (accepted_prefix_only _ _ _ Hacc Hnr).
Qed.

(** The statement on the example catalog. *)
Lemma wildcard_picks_match_request_witness :
  exists req wcs,
    [web_b; data_mining_a] = req ++ wcs
    /\ map short_title req = ["Web Pro"].
Proof.
  destruct (@wildcard_picks_match_request ascii_lower elective_catalog
              scenario_c 10
              [[web_b; data_mining_a]; [web_b; data_mining_b]]
              [web_b; data_mining_a])
    as [req [wcs [H1 [H2 _]]]].
  - vm_compute. reflexivity.
  - now left.
  - exists req, wcs. split; [exact H1 | exact H2].
Defined.

(** ** Diagnostics *)

Lemma resolve_required_log_fold (constraints : TimetableConstraints)
  (grouped : odict (list Course)) (names : list string)
  (acc : list (list Course) * list diagnostic) :
  snd (fold_left (required_step constraints grouped) names acc)
  = snd acc
    ++ flat_map (fun name => snd (required_option constraints grouped name)) names.
Proof.
  revert acc; induction names as [|n names IH]; intros [ro log]; simpl.
  - now rewrite app_nil_r.
  - rewrite IH. unfold required_step.
    destruct (required_option constraints grouped n) as [opt warn]; simpl.
    now rewrite <- app_assoc.
Qed.

Lemma resolve_required_log (constraints : TimetableConstraints)
  (grouped : odict (list Course)) :
  snd (resolve_required constraints grouped)
  = flat_map (fun name => snd (required_option constraints grouped name))
             (required_courses constraints).
Proof.
  unfold resolve_required.
  apply (resolve_required_log_fold constraints grouped
           (required_courses constraints) ([], [])).
Qed.

Lemma generate_log (lower : string -> string) (courses : list Course)
  (constraints : TimetableConstraints) (max_results : Z) :
  fst (generate_timetables lower courses constraints max_results)
  = snd (resolve_required constraints
           (get_unique_courses (filter_courses lower courses constraints)))
    ++ match required_options_of lower courses constraints with
       | [] => [NoRequiredCourses]
       | _ => []
       end.
Proof.
  unfold generate_timetables, required_options_of.
  destruct (resolve_required constraints _) as [required_options log].
  destruct (group_wildcards _) as [by_cat by_name].
  destruct required_options as [|o os]; [reflexivity|].
  simpl. rewrite app_nil_r.
  destruct (_generate_wildcard_combos _ _); reflexivity.
Qed.

Lemma required_option_warning (constraints : TimetableConstraints)
  (filtered : list Course) (name : string) (d : diagnostic) :
  In d (snd (required_option constraints (get_unique_courses filtered) name)) ->
  (d = CourseNotFound name
   /\ forall c, In c filtered -> short_title c <> name)
  \/ (exists pref,
         d = SectionNotFound pref name
         /\ od_get name (section_preferences constraints) = Some pref
         /\ (exists c, In c filtered /\ short_title c = name)
         /\ forall c, In c filtered -> short_title c = name ->
                      ~ label_matches pref c).
Proof.
  unfold required_option. rewrite get_unique_courses_get.
  destruct (group_of name filtered) as [|x g] eqn:Hg.
  - intros [<-|[]]. left. split; [reflexivity|].
    intros c Hc Hn.
    assert (In c (group_of name filtered)) as Habs by (apply group_of_In; auto).
    rewrite Hg in Habs. contradiction.
  - rewrite <- Hg. unfold od_get_default.
    destruct (od_get name (section_preferences constraints)) as [pref|] eqn:Hp;
      [|simpl; contradiction].
    destruct (pref_truthy pref && pref_not_any pref); [|simpl; contradiction].
    assert (forall matching : list Course,
               matching = filter (label_matchesb pref) (group_of name filtered) ->
               In d (snd match matching with
                         | _ :: _ => (Some matching, [])
                         | [] => (Some (group_of name filtered),
                                  [SectionNotFound pref name])
                         end) ->
               exists pref0,
                 d = SectionNotFound pref0 name /\ Some pref = Some pref0
                 /\ (exists c, In c filtered /\ short_title c = name)
                 /\ forall c, In c filtered -> short_title c = name ->
                              ~ label_matches pref0 c) as Hcase.
    { intros matching Hm. destruct matching as [|m ms]; [|simpl; contradiction].
      intros [<-|[]]. exists pref. split; [reflexivity|]. split; [reflexivity|].
      split.
      - exists x. apply group_of_In. rewrite Hg. now left.
      - intros c Hc Hn Hl. apply label_matchesb_iff in Hl.
        assert (In c (filter (label_matchesb pref) (group_of name filtered)))
          as Habs by (apply filter_In; split; [apply group_of_In; auto | exact Hl]).
        rewrite <- Hm in Habs. contradiction. }
    intros Hd. right. destruct pref as [s|l]; apply (Hcase _ eq_refl Hd).
Qed.

(** X23: the diagnostics of [generate_timetables] are exact: a "course not
    found" warning is reported for a name exactly when the name is required
    and no offering of the filtered catalog carries it; the "no required
    courses" warning is reported exactly when no required name is resolved;
    and a "section not found" warning is reported only for a required
    course that has offerings, none of which carries a preferred label. *)
Theorem diagnostics_exact (lower : string -> string) (courses : list Course)
  (constraints : TimetableConstraints) (max_results : Z) :
  (forall name,
      In (CourseNotFound name)
         (fst (generate_timetables lower courses constraints max_results))
      <-> In name (required_courses constraints)
          /\ forall c, In c (filter_courses lower courses constraints) ->
                       short_title c <> name)
  /\ (In NoRequiredCourses
         (fst (generate_timetables lower courses constraints max_results))
      <-> resolvable_required lower courses constraints = [])
  /\ (forall pref name,
         In (SectionNotFound pref name)
            (fst (generate_timetables lower courses constraints max_results)) ->
         In name (required_courses constraints)
         /\ od_get name (section_preferences constraints) = Some pref
         /\ (exists c, In c (filter_courses lower courses constraints)
                       /\ short_title c = name)
         /\ forall c, In c (filter_courses lower courses constraints) ->
                      short_title c = name -> ~ label_matches pref c).
Proof.
  rewrite generate_log, resolve_required_log.
  set (filtered := filter_courses lower courses constraints).
  assert (forall d,
             In d (match required_options_of lower courses constraints with
                   | [] => [NoRequiredCourses]
                   | _ :: _ => []
                   end) ->
             d = NoRequiredCourses
             /\ resolvable_required lower courses constraints = []) as Hlast.
  { intros d. pose proof (required_options_resolvable lower courses constraints) as Hr.
    destruct (required_options_of lower courses constraints); [|contradiction].
    intros [<-|[]]. split; [reflexivity | now apply Hr]. }
  split; [|split].
  - intros name. rewrite in_app_iff, in_flat_map. split.
    + intros [[n [Hn Hd]]|Hd].
      * apply required_option_warning in Hd.
        destruct Hd as [[[= ->] Hmiss]|[pref [Hd _]]]; [auto | discriminate].
      * apply Hlast in Hd. destruct Hd as [Hd _]. discriminate.
    + intros [Hin Hmiss]. left. exists name. split; [assumption|].
      rewrite required_option_missing; [now left|].
      rewrite get_unique_courses_get.
      destruct (group_of name filtered) as [|x g] eqn:Hg; [reflexivity|].
      assert (In x (group_of name filtered)) as Hx by (rewrite Hg; now left).
      apply group_of_In in Hx. destruct Hx as [Hx Hn].
      exfalso. exact (Hmiss x Hx Hn).
  - rewrite in_app_iff, in_flat_map. split.
    + intros [[n [Hn Hd]]|Hd].
      * apply required_option_warning in Hd.
        destruct Hd as [[Hd _]|[pref [Hd _]]]; discriminate.
      * apply Hlast in Hd. tauto.
    + intros Hr. right.
      apply required_options_resolvable in Hr. rewrite Hr. now left.
  - intros pref name. rewrite in_app_iff, in_flat_map.
    intros [[n [Hn Hd]]|Hd].
    + apply required_option_warning in Hd.
      destruct Hd as [[Hd _]|[pref0 [[= -> ->] H]]]; [discriminate|].
      split; [assumption | exact H].
    + apply Hlast in Hd. destruct Hd as [Hd _]. discriminate.
Qed.

(** ** Section preferences in the generator *)





(** ** Grouping by slot pattern in the web layer *)

Lemma set_eqb_iff (a b : list string) :
  set_eqb a b = true <-> forall x, In x a <-> In x b.
Proof.
  unfold set_eqb. rewrite andb_true_iff, !forallb_forall. split.
  - intros [H1 H2] x. split; intros Hx.
    + apply str_in_iff. now apply H1.
    + apply str_in_iff. now apply H2.
  - intros H. split; intros x Hx; apply str_in_iff; now apply H.
Qed.

Lemma set_eqb_refl (a : list string) : set_eqb a a = true.
Proof. apply set_eqb_iff. tauto. Qed.

Lemma patterns_append_perm (key : list string) (tt : selection)
  (patterns : list (list string * list selection)) :
  Permutation (concat (map snd (patterns_append key tt patterns)))
              (tt :: concat (map snd patterns)).
Proof.
  induction patterns as [|[k tts] rest IH]; simpl; [reflexivity|].
  destruct (set_eqb k key); simpl.
  - rewrite <- app_assoc. simpl.
    rewrite <- Permutation_middle. reflexivity.
  - rewrite IH. rewrite Permutation_middle. reflexivity.
Qed.

Lemma patterns_append_groups (tt : selection)
  (patterns : list (list string * list selection)) :
  Forall pattern_group patterns ->
  Forall pattern_group (patterns_append (get_slot_pattern tt) tt patterns).
Proof.
  induction patterns as [|[k tts] rest IH]; simpl; intros Hp.
  - constructor; [|constructor]. split; [discriminate|].
    constructor; [apply set_eqb_refl | constructor].
  - inversion Hp as [|? ? [Hne Hall] Hrest]; subst.
    destruct (set_eqb k (get_slot_pattern tt)) eqn:He.
    + constructor; [|assumption]. split.
      * simpl. destruct tts; discriminate.
      * simpl in *. apply Forall_app. split; [assumption|].
        constructor; [assumption | constructor].
    + constructor; [split; assumption | now apply IH].
Qed.

Lemma group_fold_inv (timetables : list selection)
  (patterns : list (list string * list selection)) :
  Forall pattern_group patterns ->
  let r := fold_left
             (fun patterns tt => patterns_append (get_slot_pattern tt) tt patterns)
             timetables patterns in
  Forall pattern_group r
  /\ Permutation (concat (map snd r)) (concat (map snd patterns) ++ timetables).
Proof.
  revert patterns; induction timetables as [|tt tts IH]; intros patterns Hp; simpl.
  - split; [assumption | now rewrite app_nil_r].
  - destruct (IH _ (patterns_append_groups tt Hp)) as [H1 H2].
    split; [assumption|]. rewrite H2, patterns_append_perm.
    simpl. apply Permutation_middle.
Qed.

(** X24: grouping by slot pattern in the web layer loses and repeats
    nothing: the groups together hold exactly the generated timetables,
    each once; no group is empty; and every timetable of a group has the
    slot pattern of the group. *)
Theorem web_grouping_partitions (timetables : list selection) :
  Permutation (concat (map snd (group_by_slot_pattern timetables))) timetables
  /\ Forall pattern_group (group_by_slot_pattern timetables)
  /\ length (concat (map snd (group_by_slot_pattern timetables)))
     = length timetables.
Proof.
  destruct (@group_fold_inv timetables [] (Forall_nil _)) as [H1 H2].
  simpl in H2. split; [exact H2|]. split; [exact H1|].
  apply Permutation_length. exact H2.
Qed.

Lemma nodup_map_ordered (A B : Type) (f : A -> B) (l : list A) :
  NoDup (map f l) -> ForallOrdPairs (fun a b => f a <> f b) l.
Proof.
  induction l as [|a l IH]; simpl; intros H; [constructor|].
  inversion H as [|? ? Hna Hnd]; subst. constructor; [|now apply IH].
  apply Forall_forall. intros b Hb Heq. apply Hna. rewrite Heq. now apply in_map.
Qed.

Lemma patterns_append_new (key : list string) (tt : selection)
  (patterns : list (list string * list selection)) :
  Forall (fun g => set_eqb (fst g) key = false) patterns ->
  patterns_append key tt patterns = patterns ++ [(key, [tt])].
Proof.
  induction patterns as [|[k tts] rest IH]; simpl; intros H; [reflexivity|].
  inversion H as [|? ? Hk Hrest]; subst. simpl in Hk. rewrite Hk.
  f_equal. now apply IH.
Qed.

Lemma group_fold_singletons (timetables done : list selection) :
  ForallOrdPairs
    (fun a b => set_eqb (get_slot_pattern a) (get_slot_pattern b) = false)
    (done ++ timetables) ->
  fold_left
    (fun patterns tt => patterns_append (get_slot_pattern tt) tt patterns)
    timetables (map (fun tt => (get_slot_pattern tt, [tt])) done)
  = map (fun tt => (get_slot_pattern tt, [tt])) (done ++ timetables).
Proof.
  revert done; induction timetables as [|tt tts IH]; intros done Hp; simpl.
  - now rewrite app_nil_r.
  - rewrite patterns_append_new.
    + specialize (IH (done ++ [tt])). rewrite map_app in IH. simpl in IH.
      rewrite <- app_assoc in IH. simpl in IH. now apply IH.
    + apply Forall_forall. intros g Hg. apply in_map_iff in Hg.
      destruct Hg as [a [<- Ha]]. simpl.
      clear IH. induction done as [|d done IHd]; [contradiction|].
      simpl in Hp. inversion Hp as [|? ? Hd Hrest]; subst.
      destruct Ha as [->|Ha]; [|now apply IHd].
      apply (proj1 (Forall_forall _ _) Hd tt).
      apply in_or_app. right. now left.
Qed.

(** X25: the generator returns one timetable per slot pattern, so the web
    layer's groups are single timetables: when no slot string of the
    returned selections holds a dash and no returned selection occupies a
    slot key twice, every group has exactly one timetable (one variation),
    and there are as many groups as returned selections, in the same
    order. *)
Theorem one_timetable_per_web_pattern (lower : string -> string)
  (courses : list Course) (constraints : TimetableConstraints)
  (max_results : Z) (res : list selection) :
  snd (generate_timetables lower courses constraints max_results) = Returns res ->
  (forall sel c day time venue,
      In sel res -> In c sel -> In (day, time, venue) (get_time_slots c) ->
      str_contains "-" time = false) ->
  (forall sel, In sel res -> NoDup (slot_keys sel)) ->
  group_by_slot_pattern res
  = map (fun tt => (get_slot_pattern tt, [tt])) res.
Proof.
  intros H Hdash Hnd. unfold group_by_slot_pattern.
  apply (group_fold_singletons res []). simpl.
  pose proof (generated_nodup _ _ _ _ H) as Hpat.
  apply nodup_map_ordered in Hpat.
  assert (forall sel key,
             In sel res ->
             (In key (get_slot_pattern sel) <-> In key (_get_slot_pattern sel)))
    as Hagree.
  { intros sel key Hsel. unfold get_slot_pattern.
    rewrite get_slot_pattern_fold, get_slot_pattern_keys, sorted_In, slot_keys_In.
    split.
    - intros [[]|[c [d [t [v [Hc [Hin ->]]]]]]]. exists c, d, t, v.
      split; [assumption|]. split; [assumption|].
      unfold get_slot_key. now rewrite (Hdash sel c d t v Hsel Hc Hin).
    - intros [c [d [t [v [Hc [Hin ->]]]]]]. right. exists c, d, t, v.
      split; [assumption|]. split; [assumption|].
      unfold get_slot_key. now rewrite (Hdash sel c d t v Hsel Hc Hin). }
  assert (forall a b, In a res -> In b res ->
                      _get_slot_pattern a <> _get_slot_pattern b ->
                      set_eqb (get_slot_pattern a) (get_slot_pattern b) = false)
    as Hne.
  { intros a b Ha Hb Hab.
    destruct (set_eqb (get_slot_pattern a) (get_slot_pattern b)) eqn:He;
      [|reflexivity].
    exfalso. apply Hab. rewrite set_eqb_iff in He.
    apply strongly_sorted_unique.
    - rewrite get_slot_pattern_keys. apply sorted_sorted.
    - rewrite get_slot_pattern_keys. apply sorted_sorted.
    - apply NoDup_Permutation.
      + rewrite get_slot_pattern_keys.
        apply (Permutation_NoDup (Permutation_sym (sorted_perm _))). now apply Hnd.
      + rewrite get_slot_pattern_keys.
        apply (Permutation_NoDup (Permutation_sym (sorted_perm _))). now apply Hnd.
      + intros key. rewrite <- (Hagree a key Ha), <- (Hagree b key Hb). apply He. }
  clear -Hpat Hne.
  assert (forall l, incl l res ->
                    ForallOrdPairs
                      (fun a b => _get_slot_pattern a <> _get_slot_pattern b) l ->
                    ForallOrdPairs
                      (fun a b => set_eqb (get_slot_pattern a) (get_slot_pattern b)
                                  = false) l) as Hgen.
  { induction l as [|a l IH]; intros Hincl Hp; [constructor|].
    inversion Hp as [|? ? Ha Hrest]; subst. constructor.
    - apply Forall_forall. intros b Hb.
      apply Hne; [apply Hincl; now left | apply Hincl; now right|].
      exact (proj1 (Forall_forall _ _) Ha b Hb).
    - apply IH; [|assumption]. intros x Hx. apply Hincl. now right. }
  apply Hgen; [apply incl_refl | exact Hpat].
Qed.

(** The statement on the example catalog. *)
Lemma one_timetable_per_web_pattern_witness :
  group_by_slot_pattern [[web_a; seminar]; [web_b; seminar]]
  = map (fun tt => (get_slot_pattern tt, [tt]))
        [[web_a; seminar]; [web_b; seminar]].
Proof.
  apply (@one_timetable_per_web_pattern ascii_lower example_catalog
           scenario_seminar 1000).
  - vm_compute. reflexivity.
  - intros sel c day time venue Hsel Hc Hin.
    simpl in Hsel. destruct Hsel as [<-|[<-|[]]];
      simpl in Hc; destruct Hc as [<-|[<-|[]]];
      vm_compute in Hin;
      repeat (destruct Hin as [[= <- <- <-]|Hin]; [reflexivity|]);
      contradiction.
  - intros sel Hsel. simpl in Hsel. destruct Hsel as [<-|[<-|[]]];
      vm_compute; repeat constructor; simpl; tauto.
Defined.
